(** * Photo-Watermark: a shallow embedding of [watermark.py]

    The file embeds the methods of class [WatermarkTool] and the function
    [main], and states the properties of the specification, and further
    properties of the code, over them.

    - [Module Py] models the pieces of the Python runtime the tool calls:
      [str] methods, [int()], [float()], [datetime.strptime]/[strftime],
      float to int conversion, the pure paths of [pathlib] and its glob of
      one directory level.
    - [Module WatermarkTool] holds the methods and [main], under their
      source names.
    - The theorems follow the definitions. *)

From Stdlib Require Import ZArith NArith QArith List String Ascii Lia Bool Floats.
From Stdlib Require DecimalN.
From stdpp Require Import base option list gmap.

Local Open Scope Z_scope.

(* ================================================================== *)
(** * The Python runtime *)
(* ================================================================== *)

Module Py.

(** ** Exceptions and results *)

(** The subclasses of [Exception] the modelled code can meet.  All of them
    are caught by an [except Exception] clause. *)
Inductive exn : Type :=
| ValueError
| OverflowError
| OSError
| OtherException (class_name : string).

Inductive pyresult (A : Type) : Type :=
| Ok (a : A)
| Raise (e : exn).
Arguments Ok {A} a.
Arguments Raise {A} e.

#[export] Instance pyresult_ret : MRet pyresult := fun A a => Ok a.
#[export] Instance pyresult_bind : MBind pyresult := fun A B f m =>
  match m with
  | Ok a => f a
  | Raise e => Raise e
  end.

Definition is_ok {A} (r : pyresult A) : bool :=
  match r with Ok _ => true | Raise _ => false end.

(** ** Strings

    A Python [str] is a sequence of Unicode code points. *)

Abbreviation pychar := N (only parsing).
Abbreviation pystr := (list N) (only parsing).

(** An ASCII literal of the source, as a [pystr]. *)
Definition str (s : string) : pystr := map N_of_ascii (list_ascii_of_string s).

(** The tables of the interpreter's Unicode database and the settings of the
    platform.  Nothing below fixes them: every theorem holds for every
    runtime. *)
Record runtime : Type := {
  (** [str.lower()] of the non-ASCII code point at index [i] of [s]
      (the context only matters for U+03A3). *)
  unicode_lower : pystr -> nat -> pystr;
  (** [Py_UNICODE_TODECIMAL] on a non-ASCII code point. *)
  unicode_decimal : pychar -> option N;
  (** [sys.get_int_max_str_digits()]; 0 means no limit. *)
  int_max_str_digits : N;
  (** whether [strftime("%Y")] pads a year below 1000 to four digits. *)
  strftime_pads_year : bool;
  (** [pathlib]'s flavour: [true] for [PosixPath] (patterns are matched
      case-sensitively), [false] for [WindowsPath] ([re.IGNORECASE]). *)
  posix_flavour : bool;
  (** [re.IGNORECASE] equivalence of a pattern character with a non-ASCII
      code point. *)
  unicode_icase : pychar -> pychar -> bool
}.

Definition is_ascii (c : pychar) : bool := (c <? 128)%N.

Definition in_range (lo hi c : N) : bool := ((lo <=? c) && (c <=? hi))%N.

(** [Py_UNICODE_ISSPACE]: what [str.strip()] removes and [\s] matches. *)
Definition is_unicode_space (c : pychar) : bool :=
  in_range 9 13 c || in_range 28 32 c || (c =? 133)%N || (c =? 160)%N
  || (c =? 5760)%N || in_range 8192 8202 c || (c =? 8232)%N || (c =? 8233)%N
  || (c =? 8239)%N || (c =? 8287)%N || (c =? 12288)%N.

(** [Py_ISSPACE]: the ASCII white space [int()] skips. *)
Definition is_c_space (c : pychar) : bool := in_range 9 13 c || (c =? 32)%N.

Definition ascii_lower (c : pychar) : pychar :=
  if in_range 65 90 c then (c + 32)%N else c.

Definition ascii_upper (c : pychar) : pychar :=
  if in_range 97 122 c then (c - 32)%N else c.

Fixpoint lower_from (rt : runtime) (whole : pystr) (i : nat) (s : pystr) : pystr :=
  match s with
  | [] => []
  | c :: s' =>
      (if is_ascii c then [ascii_lower c] else unicode_lower rt whole i)
        ++ lower_from rt whole (S i) s'
  end.

(** [s.lower()] *)
Definition lower (rt : runtime) (s : pystr) : pystr := lower_from rt s 0 s.

(** [s.upper()], on the ASCII strings the tool applies it to. *)
Definition upper_ascii (s : pystr) : pystr := map ascii_upper s.

Fixpoint startswith (s p : pystr) {struct p} : bool :=
  match p, s with
  | [], _ => true
  | a :: p', b :: s' => (a =? b)%N && startswith s' p'
  | _ :: _, [] => false
  end.

Definition endswith (s p : pystr) : bool := startswith (rev s) (rev p).

(** [s[i:]] and [s[i:j]] for [0 <= i <= j], and [s[i:-1]] *)
Definition slice_from (i : nat) (s : pystr) : pystr := drop i s.
Definition slice (i j : nat) (s : pystr) : pystr := take (j - i) (drop i s).
Definition slice_to_last (i : nat) (s : pystr) : pystr :=
  take (length s - 1 - i) (drop i s).

(** [s.split(sep)] for a one-character separator *)
Fixpoint split_on (sep : pychar) (s : pystr) : list pystr :=
  match s with
  | [] => [[]]
  | c :: s' =>
      if (c =? sep)%N then [] :: split_on sep s'
      else match split_on sep s' with
           | [] => [[c]]
           | w :: ws => (c :: w) :: ws
           end
  end.

Fixpoint lstrip (s : pystr) : pystr :=
  match s with
  | c :: s' => if is_unicode_space c then lstrip s' else s
  | [] => []
  end.

(** [s.strip()] *)
Definition strip (s : pystr) : pystr := rev (lstrip (rev (lstrip s))).

(** [c in s] *)
Definition contains (c : pychar) (s : pystr) : bool := existsb (N.eqb c) s.

(** ** [int(s, base)]

    [PyLong_FromUnicodeObject]: code points from 127 on are first replaced,
    white space by a blank, a decimal digit by its ASCII digit, anything
    else by ['?'] (CPython also cuts the string after the first ['?'], which
    changes nothing: a ['?'] is rejected wherever it stands). *)
Definition to_ascii_decimal (rt : runtime) (c : pychar) : pychar :=
  if (c <? 127)%N then c
  else if is_unicode_space c then 32%N
  else match unicode_decimal rt c with
       | Some d => (48 + d)%N
       | None => 63%N
       end.

(** [_PyLong_DigitValue] *)
Definition digit_value (c : pychar) : option N :=
  if in_range 48 57 c then Some (c - 48)%N
  else if in_range 97 122 c then Some (c - 87)%N
  else if in_range 65 90 c then Some (c - 55)%N
  else None.

Definition is_digit_in (base : N) (c : pychar) : bool :=
  match digit_value c with
  | Some d => (d <? base)%N
  | None => false
  end.

Definition underscore : pychar := 95%N.

(** The longest prefix of digits and underscores, and what follows it. *)
Fixpoint span_digits (base : N) (s : pystr) : pystr * pystr :=
  match s with
  | c :: s' =>
      if is_digit_in base c || (c =? underscore)%N
      then let '(d, r) := span_digits base s' in (c :: d, r)
      else ([], s)
  | [] => ([], [])
  end.

(** No leading, trailing or doubled underscore, and at least one digit. *)
Fixpoint well_grouped (prev_us : bool) (d : pystr) : bool :=
  match d with
  | [] => negb prev_us
  | c :: d' =>
      if (c =? underscore)%N then negb prev_us && well_grouped true d'
      else well_grouped false d'
  end.

Definition digits_of (d : pystr) : pystr :=
  filter (fun c => c ≠ underscore) d.

Definition digits_value (base : N) (d : pystr) : Z :=
  fold_left (fun acc c => acc * Z.of_N base + Z.of_N (default 0%N (digit_value c)))
            (digits_of d) 0.

Fixpoint skip_c_space (s : pystr) : pystr :=
  match s with
  | c :: s' => if is_c_space c then skip_c_space s' else s
  | [] => []
  end.

Definition is_pow2_base (base : N) : bool :=
  (base =? 2)%N || (base =? 4)%N || (base =? 8)%N || (base =? 16)%N || (base =? 32)%N.

(** [_PY_LONG_MAX_STR_DIGITS_THRESHOLD]: shorter literals are never
    checked against the limit. *)
Definition max_str_digits_threshold : N := 640.

(** [PyLong_FromString] for an explicit base (10 or 16 in the tool) *)
Definition int_of_ascii (rt : runtime) (base : N) (s : pystr) : pyresult Z :=
  let s1 := skip_c_space s in
  let '(neg, s2) :=
    match s1 with
    | 43%N :: r => (false, r)
    | 45%N :: r => (true, r)
    | _ => (false, s1)
    end in
  let s3 :=
    match s2 with
    | 48%N :: x :: r =>
        if (base =? 16)%N && ((x =? 120)%N || (x =? 88)%N)
        then match r with
             | 95%N :: r' => r'
             | _ => r
             end
        else s2
    | _ => s2
    end in
  let '(d, rest) := span_digits base s3 in
  let n := N.of_nat (length (digits_of d)) in
  if negb (well_grouped true d) then Raise ValueError
  else if negb (is_pow2_base base) && (max_str_digits_threshold <? n)%N
          && (0 <? int_max_str_digits rt)%N && (int_max_str_digits rt <? n)%N
  then Raise ValueError
  else match skip_c_space rest with
       | [] => Ok (if neg then - digits_value base d else digits_value base d)
       | _ :: _ => Raise ValueError
       end.

Definition int (rt : runtime) (base : N) (s : pystr) : pyresult Z :=
  int_of_ascii rt base (map (to_ascii_decimal rt) s).

(** ** [datetime]

    The naive date-times of the tool: the fields [strptime] fills and
    [strftime] prints. *)
Record datetime : Type := {
  year : Z; month : Z; day : Z; hour : Z; minute : Z; second : Z
}.

Definition is_leap (y : Z) : bool :=
  (y mod 4 =? 0) && (negb (y mod 100 =? 0) || (y mod 400 =? 0)).

Definition days_in_month (y m : Z) : Z :=
  if m =? 2 then (if is_leap y then 29 else 28)
  else if (m =? 4) || (m =? 6) || (m =? 9) || (m =? 11) then 30
  else 31.

(** The range checks of the [datetime] constructor. *)
Definition valid_datetime (d : datetime) : bool :=
  (1 <=? year d) && (year d <=? 9999)
  && (1 <=? month d) && (month d <=? 12)
  && (1 <=? day d) && (day d <=? days_in_month (year d) (month d))
  && (0 <=? hour d) && (hour d <=? 23)
  && (0 <=? minute d) && (minute d <=? 59)
  && (0 <=? second d) && (second d <=? 59).

(** *** The regular expression of a [strptime] format

    [_strptime] turns the format into a regular expression of named groups,
    literal characters and [\s+]; every alternative of a group is a fixed
    sequence of character classes.  [re_match] lists the matches in the
    order the backtracking engine finds them: its head is [re.match]. *)
Definition char_class := pychar -> bool.

Inductive re_item : Type :=
| ReGroup (alts : list (list char_class))
| ReLit (c : pychar)
| ReSpaces.

Fixpoint match_classes (cs : list char_class) (s : pystr) : option (pystr * pystr) :=
  match cs, s with
  | [], _ => Some ([], s)
  | p :: cs', c :: s' =>
      if p c then
        match match_classes cs' s' with
        | Some (m, r) => Some (c :: m, r)
        | None => None
        end
      else None
  | _ :: _, [] => None
  end.

(** [\s+], greedy: the longest run first. *)
Fixpoint match_spaces (s : pystr) : list (pystr * pystr) :=
  match s with
  | c :: s' =>
      if is_unicode_space c
      then map (fun '(m, r) => (c :: m, r)) (match_spaces s') ++ [([c], s')]
      else []
  | [] => []
  end.

Definition match_item (it : re_item) (s : pystr) : list (pystr * pystr) :=
  match it with
  | ReGroup alts => omap (fun cs => match_classes cs s) alts
  | ReLit c =>
      match s with
      | c' :: s' => if (c =? c')%N then [([c'], s')] else []
      | [] => []
      end
  | ReSpaces => match_spaces s
  end.

Fixpoint re_match (items : list re_item) (s : pystr) : list (list pystr * pystr) :=
  match items with
  | [] => [([], s)]
  | it :: items' =>
      '(m, r) ← match_item it s;
      '(ms, r') ← re_match items' r;
      [(m :: ms, r')]
  end.

(** [\d]: a Unicode decimal digit. *)
Definition is_decimal (rt : runtime) : char_class := fun c =>
  if is_ascii c then in_range 48 57 c
  else match unicode_decimal rt c with Some _ => true | None => false end.

Definition one_of (lo hi : N) : char_class := in_range lo hi.
Definition just (c : N) : char_class := N.eqb c.

(** The groups of [TimeRE] for the directives of the tool's format. *)
Definition re_Y rt := ReGroup [[is_decimal rt; is_decimal rt; is_decimal rt; is_decimal rt]].
Definition re_m := ReGroup [[just 49; one_of 48 50]; [just 48; one_of 49 57]; [one_of 49 57]].
Definition re_d rt :=
  ReGroup [[just 51; one_of 48 49]; [one_of 49 50; is_decimal rt]; [just 48; one_of 49 57];
           [one_of 49 57]; [just 32; one_of 49 57]].
Definition re_H rt := ReGroup [[just 50; one_of 48 51]; [one_of 48 49; is_decimal rt]; [is_decimal rt]].
Definition re_M rt := ReGroup [[one_of 48 53; is_decimal rt]; [is_decimal rt]].
Definition re_S rt := ReGroup [[just 54; one_of 48 49]; [one_of 48 53; is_decimal rt]; [is_decimal rt]].

Definition colon : pychar := 58%N.

(** The pattern of ['%Y:%m:%d %H:%M:%S']. *)
Definition exif_pattern (rt : runtime) : list re_item :=
  [re_Y rt; ReLit colon; re_m; ReLit colon; re_d rt; ReSpaces;
   re_H rt; ReLit colon; re_M rt; ReLit colon; re_S rt].

(** [datetime.strptime(s, '%Y:%m:%d %H:%M:%S')]: the first match must cover
    the whole string, the groups are converted with [int] and the fields go
    through the constructor's range checks. *)
Definition strptime_exif (rt : runtime) (s : pystr) : pyresult datetime :=
  match re_match (exif_pattern rt) s with
  | ([gY; _; gm; _; gd; _; gH; _; gM; _; gS], []) :: _ =>
      y ← int rt 10 gY;
      m ← int rt 10 gm;
      d ← int rt 10 gd;
      h ← int rt 10 gH;
      mi ← int rt 10 gM;
      se ← int rt 10 gS;
      let dt := Build_datetime y m d h mi se in
      if valid_datetime dt then Ok dt else Raise ValueError
  | _ => Raise ValueError
  end.

Fixpoint uint_digits (u : Decimal.uint) : pystr :=
  match u with
  | Decimal.Nil => []
  | Decimal.D0 u' => 48%N :: uint_digits u'
  | Decimal.D1 u' => 49%N :: uint_digits u'
  | Decimal.D2 u' => 50%N :: uint_digits u'
  | Decimal.D3 u' => 51%N :: uint_digits u'
  | Decimal.D4 u' => 52%N :: uint_digits u'
  | Decimal.D5 u' => 53%N :: uint_digits u'
  | Decimal.D6 u' => 54%N :: uint_digits u'
  | Decimal.D7 u' => 55%N :: uint_digits u'
  | Decimal.D8 u' => 56%N :: uint_digits u'
  | Decimal.D9 u' => 57%N :: uint_digits u'
  end.

(** The decimal digits of a natural number, and the same padded with zeros
    on the left ([%d] and [%0wd] of C). *)
Definition decimal (n : Z) : pystr := uint_digits (N.to_uint (Z.to_N n)).
Definition decimal_padded (w : nat) (n : Z) : pystr :=
  let s := decimal n in replicate (w - length s) 48%N ++ s.

(** The code points of the three ideographs of the display format. *)
Definition nian : pychar := 24180%N.
Definition yue : pychar := 26376%N.
Definition ri : pychar := 26085%N.

(** [dt.strftime('%Y年%m月%d日')] *)
Definition strftime_ymd (rt : runtime) (dt : datetime) : pystr :=
  (if strftime_pads_year rt then decimal_padded 4 (year dt) else decimal (year dt))
    ++ [nian] ++ decimal_padded 2 (month dt) ++ [yue]
    ++ decimal_padded 2 (day dt) ++ [ri].

(** ** Texts the tool is given

    [str(n)] of an [int], as a colour specification spells a component. *)
Definition is_ascii_digit (c : pychar) : bool := in_range 48 57 c.

Definition str_of_int (n : Z) : pystr :=
  if n <? 0 then 45%N :: decimal (- n) else decimal n.

(** The layout of an EXIF date-time value, [YYYY:MM:DD HH:MM:SS] with every
    field padded with zeros; [exifread] hands the value over as this
    text. *)
Definition exif_text (dt : datetime) : pystr :=
  decimal_padded 4 (year dt) ++ [colon] ++ decimal_padded 2 (month dt) ++ [colon]
    ++ decimal_padded 2 (day dt) ++ [32%N] ++ decimal_padded 2 (hour dt) ++ [colon]
    ++ decimal_padded 2 (minute dt) ++ [colon] ++ decimal_padded 2 (second dt).

(** ** Floats

    A Python [float] is an IEEE 754 binary64 number: Rocq's primitive
    [float]. *)

(** [int(x)]: truncation towards zero. *)
Definition int_of_float (x : float) : pyresult Z :=
  match Prim2SF x with
  | S754_nan => Raise ValueError
  | S754_infinity _ => Raise OverflowError
  | S754_zero _ => Ok 0
  | S754_finite s m e =>
      let a := match e with
               | Zneg p => Z.pos m / 2 ^ Z.pos p
               | _ => Z.pos m * 2 ^ e
               end in
      Ok (if s then - a else a)
  end.

(** The rational number a finite float stands for. *)
Definition float_value (x : float) : option Q :=
  match Prim2SF x with
  | S754_zero _ => Some 0%Q
  | S754_finite s m e =>
      let v := match e with
               | Zneg p => Z.pos m # 2 ^ p
               | _ => inject_Z (Z.pos m * 2 ^ e)
               end in
      Some (if s then - v else v)%Q
  | S754_nan | S754_infinity _ => None
  end.

(** [round(x)]: the nearest integer, a tie going to the even one. *)
Definition round_float (x : float) : pyresult Z :=
  match Prim2SF x with
  | S754_nan => Raise ValueError
  | S754_infinity _ => Raise OverflowError
  | S754_zero _ => Ok 0
  | S754_finite s m e =>
      let a := match e with
               | Zneg p =>
                   let q := Z.pos m / 2 ^ Z.pos p in
                   let r := Z.pos m mod 2 ^ Z.pos p in
                   let half := 2 ^ (Z.pos p - 1) in
                   if r <? half then q
                   else if half <? r then q + 1
                   else if Z.even q then q else q + 1
               | _ => Z.pos m * 2 ^ e
               end in
      Ok (if s then - a else a)
  end.

(** ** [pathlib]

    A path of the tool: a directory and the name of an entry in it. *)
Record path : Type := { parent : pystr; name : pystr }.

#[export] Instance path_eq_dec : EqDecision path.
Proof. solve_decision. Defined.

(** How the compiled pattern compares a pattern character with a character
    of the name. *)
Definition pattern_char_eq (rt : runtime) (p c : pychar) : bool :=
  if posix_flavour rt then (p =? c)%N
  else if is_ascii c then (ascii_lower p =? ascii_lower c)%N
  else unicode_icase rt p c.

Fixpoint ends_like (eqc : pychar -> pychar -> bool) (rev_name rev_lit : pystr)
    {struct rev_lit} : bool :=
  match rev_lit, rev_name with
  | [], _ => true
  | p :: ps, c :: cs => eqc p c && ends_like eqc cs ps
  | _ :: _, [] => false
  end.

(** [fnmatch] of a name against ['*' + lit], for a literal without wildcards:
    any name that ends with the literal. *)
Definition star_match (rt : runtime) (lit name : pystr) : bool :=
  ends_like (pattern_char_eq rt) (rev name) (rev lit).

(** [Path(dir).glob('*' + lit)] over the names [scandir] lists. *)
Definition glob_star (rt : runtime) (dir : pystr) (entries : list pystr) (lit : pystr) : list path :=
  map (Build_path dir) (filter (fun n => star_match rt lit n = true) entries).

(** [Path.stem] and [Path.suffix] *)
Fixpoint rfind_dot (s : pystr) (i : nat) (found : option nat) : option nat :=
  match s with
  | [] => found
  | c :: s' => rfind_dot s' (S i) (if (c =? 46)%N then Some i else found)
  end.

Definition split_suffix (nm : pystr) : pystr * pystr :=
  match rfind_dot nm 0 None with
  | Some i => if (0 <? i)%nat && (i <? length nm - 1)%nat
              then (take i nm, drop i nm) else (nm, [])
  | None => (nm, [])
  end.

Definition stem (p : path) : pystr := fst (split_suffix (name p)).
Definition suffix (p : path) : pystr := snd (split_suffix (name p)).

(** ** [str.isdigit] and [str.replace] *)

(** [Py_UNICODE_ISDIGIT]; [unicode_digit] is the table for the code points
    outside ASCII. *)
Definition is_digit_char (unicode_digit : N -> bool) (c : pychar) : bool :=
  if is_ascii c then is_ascii_digit c else unicode_digit c.

(** [s.isdigit()] *)
Definition isdigit (unicode_digit : N -> bool) (s : pystr) : bool :=
  match s with
  | [] => false
  | _ :: _ => forallb (is_digit_char unicode_digit) s
  end.

(** [s.replace(c, '')] for a one-character [c] *)
Definition remove_char (c : pychar) (s : pystr) : pystr :=
  filter (fun x => x ≠ c) s.

(** ** [float(s)] *)

(** A decimal literal [strtod] has read: sign, integer digits, fraction
    digits and exponent. *)
Record decimal_literal : Type := {
  lit_negative : bool;
  lit_integer : pystr;
  lit_fraction : pystr;
  lit_exponent : option (bool * pystr)
}.

Inductive float_literal : Type :=
| LitDecimal (d : decimal_literal)
| LitInfinity (negative : bool)
| LitNan.

Fixpoint span (p : N -> bool) (s : pystr) : pystr * pystr :=
  match s with
  | c :: s' => if p c then let '(a, r) := span p s' in (c :: a, r) else ([], s)
  | [] => ([], [])
  end.

Definition split_sign (s : pystr) : bool * pystr :=
  match s with
  | 45%N :: r => (true, r)
  | 43%N :: r => (false, r)
  | _ => (false, s)
  end.

(** [_Py_string_to_number_with_underscores]: the text without its
    underscores, or [None] when an underscore does not stand between two
    digits.  [prev] is the character before, 0 at the start. *)
Fixpoint drop_underscores (prev : pychar) (s : pystr) : option (pystr) :=
  match s with
  | [] => if (prev =? underscore)%N then None else Some []
  | c :: s' =>
      if (c =? underscore)%N then
        if is_ascii_digit prev then drop_underscores c s' else None
      else if (prev =? underscore)%N && negb (is_ascii_digit c) then None
      else cons c <$> drop_underscores c s'
  end.

(** [_Py_dg_strtod]: the literal read from the front of [s] and what
    follows it; [None] when there is no digit. *)
Definition scan_decimal (s : pystr) : option (decimal_literal * pystr) :=
  let '(neg, s1) := split_sign s in
  let '(ip, s2) := span is_ascii_digit s1 in
  let '(fp, s3) :=
    match s2 with
    | 46%N :: r => span is_ascii_digit r
    | _ => ([], s2)
    end in
  match ip, fp with
  | [], [] => None
  | _, _ =>
      let '(ex, s4) :=
        match s3 with
        | e :: r =>
            if (e =? 101)%N || (e =? 69)%N then
              let '(eneg, r1) := split_sign r in
              let '(ed, r2) := span is_ascii_digit r1 in
              match ed with
              | [] => (None, s3)
              | _ :: _ => (Some (eneg, ed), r2)
              end
            else (None, s3)
        | [] => (None, s3)
        end in
      Some ({| lit_negative := neg; lit_integer := ip; lit_fraction := fp;
               lit_exponent := ex |}, s4)
  end.

(** [case_insensitive_match] *)
Definition match_word (w : string) (s : pystr) : option (pystr) :=
  let n := length (str w) in
  if bool_decide (map ascii_lower (take n s) = str w) then Some (drop n s) else None.

(** [_Py_parse_inf_or_nan] *)
Definition scan_inf_or_nan (s : pystr) : option (float_literal * pystr) :=
  let '(neg, s1) := split_sign s in
  match match_word "inf" s1 with
  | Some r =>
      match match_word "inity" r with
      | Some r' => Some (LitInfinity neg, r')
      | None => Some (LitInfinity neg, r)
      end
  | None =>
      match match_word "nan" s1 with
      | Some r => Some (LitNan, r)
      | None => None
      end
  end.

Fixpoint rstrip_c_space_rev (r : pystr) : pystr :=
  match r with
  | c :: (_ :: _) as r' => if is_c_space c then rstrip_c_space_rev r' else r
  | _ => r
  end.

(** The literal [float(s)] converts, or [None] for a [ValueError]. *)
Definition float_literal_of (rt : runtime) (s : pystr) : option float_literal :=
  let a := map (to_ascii_decimal rt) s in
  let a1 := skip_c_space a in
  let a2 := rev (rstrip_c_space_rev (rev a1)) in
  match drop_underscores 0%N a2 with
  | None => None
  | Some t =>
      match scan_decimal t with
      | Some (d, []) => Some (LitDecimal d)
      | Some (_, _ :: _) => None
      | None =>
          match scan_inf_or_nan t with
          | Some (l, []) => Some l
          | _ => None
          end
      end
  end.

(** ** [pathlib]: pure paths

    A parsed path as [PurePath] keeps it: drive, root and parts, the first
    part being the anchor (drive and root) when there is one. *)
Record pure_path : Type := { drv : pystr; root : pystr; parts : list (pystr) }.

(** What a path flavour brings: the separator, [parse_parts] on the one
    string [Path(s)] is built from, and [casefold]. *)
Record flavour : Type := {
  sep : N;
  parse_parts : pystr -> pure_path;
  casefold : pystr -> pystr
}.

Definition nonempty {A} (l : list A) : bool :=
  match l with [] => false | _ :: _ => true end.

(** [PurePath.name] *)
Definition path_name (p : pure_path) : pystr :=
  if (length (parts p) =? (if nonempty (drv p) || nonempty (root p) then 1 else 0))%nat
  then [] else List.last (parts p) [].

(** [_Flavour.join_parsed_parts] *)
Definition join_parsed_parts (fl : flavour) (p p2 : pure_path) : pure_path :=
  if nonempty (root p2) then
    if negb (nonempty (drv p2)) && nonempty (drv p)
    then {| drv := drv p; root := root p2; parts := (drv p ++ root p2) :: tail (parts p2) |}
    else p2
  else if nonempty (drv p2) then
    if bool_decide (drv p2 = drv p) || bool_decide (casefold fl (drv p2) = casefold fl (drv p))
    then {| drv := drv p; root := root p; parts := parts p ++ tail (parts p2) |}
    else p2
  else {| drv := drv p; root := root p; parts := parts p ++ parts p2 |}.

(** [p / key] *)
Definition truediv (fl : flavour) (p : pure_path) (key : pystr) : pure_path :=
  join_parsed_parts fl p (parse_parts fl key).

(** [sep.join(parts)] *)
Fixpoint join (sep : pychar) (l : list (pystr)) : pystr :=
  match l with
  | [] => []
  | [x] => x
  | x :: l' => x ++ sep :: join sep l'
  end.

(** [str(p)] *)
Definition path_str (fl : flavour) (p : pure_path) : pystr :=
  let s := if nonempty (drv p) || nonempty (root p)
           then drv p ++ root p ++ join (sep fl) (tail (parts p))
           else join (sep fl) (parts p) in
  match s with [] => str "." | _ :: _ => s end.

(** *** The POSIX flavour *)

Definition slash : N := 47%N.

Fixpoint lstrip_char (c : pychar) (s : pystr) : pystr :=
  match s with
  | x :: s' => if (x =? c)%N then lstrip_char c s' else s
  | [] => []
  end.

(** [_PosixFlavour.splitroot]: root and the rest (the drive is empty). *)
Definition posix_splitroot (part : pystr) : pystr * pystr :=
  match part with
  | c :: _ =>
      if (c =? slash)%N then
        let stripped_part := lstrip_char slash part in
        if (length part - length stripped_part =? 2)%nat
        then ([slash; slash], stripped_part)
        else ([slash], stripped_part)
      else ([], part)
  | [] => ([], part)
  end.

Definition is_component (x : pystr) : bool :=
  nonempty x && negb (bool_decide (x = str ".")).

(** [_Flavour.parse_parts] on one string, without [altsep]. *)
Definition posix_parse_parts (part : pystr) : pure_path :=
  match part with
  | [] => {| drv := []; root := []; parts := [] |}
  | _ :: _ =>
      let '(root_, rel) := posix_splitroot part in
      let parsed :=
        if contains slash rel
        then filter (fun x => is_component x = true) (split_on slash rel)
        else if is_component rel then [rel] else [] in
      {| drv := []; root := root_;
         parts := (if nonempty root_ then [root_] else []) ++ parsed |}
  end.

Definition posix_paths : flavour :=
  {| sep := slash; parse_parts := posix_parse_parts; casefold := fun s => s |}.

(** [str(Path(input_dir) / f"{Path(input_dir).name}_watermark")] *)
Definition default_output_dir (fl : flavour) (input_dir : pystr) : pystr :=
  let input_path := parse_parts fl input_dir in
  path_str fl (truediv fl input_path (path_name input_path ++ str "_watermark")).


(** An ASCII digit or a dot: the characters of an opacity typed in the
    plain way. *)
Definition plain (c : pychar) : bool := is_ascii_digit c || (c =? 46)%N.

(** A component of a parsed POSIX path: not empty, not ["."], without a
    slash. *)
Definition component (x : pystr) : Prop := x <> [] /\ x <> str "." /\ slash ∉ x.

(** ** The interpreter, besides [runtime]

    The digits outside ASCII, the value [strtod] gives a decimal literal
    (its correctly rounded binary64 number) and the flavour of [Path]. *)
Record builtins : Type := {
  unicode_digit : pychar -> bool;
  strtod : decimal_literal -> float;
  path_flavour : flavour
}.

(** [float(s)] *)
Definition float_of_str (rt : runtime) (strtod : decimal_literal -> float) (s : pystr)
    : pyresult float :=
  match float_literal_of rt s with
  | None => Raise ValueError
  | Some (LitDecimal d) => Ok (strtod d)
  | Some (LitInfinity negative) => Ok (if negative then neg_infinity else infinity)
  | Some LitNan => Ok nan
  end.

End Py.

(* ================================================================== *)
(** * class [WatermarkTool] *)
(* ================================================================== *)

Module WatermarkTool.
Import Py.

(** ** Logging

    One constructor per logging call of the source. *)
Inductive level : Type := INFO | WARNING | ERROR.

Inductive log_record : Type :=
| LogNoExifTime (image_path : path)              (* warning, extract_exif_datetime *)
| LogExtractFailed (image_path : path) (e : exn) (* error, extract_exif_datetime *)
| LogWatermarkFailed (image_path : path) (e : exn) (* error, add_watermark *)
| LogNoImages (input_dir : pystr)                (* warning, process_directory *)
| LogFound (n : nat)                             (* info, process_directory *)
| LogProcessing (file_name : pystr)              (* info, process_directory *)
| LogSkipped (file_name : pystr)                 (* warning, process_directory *)
| LogDone (file_name output_name : pystr).       (* info, process_directory *)

Definition level_of (r : log_record) : level :=
  match r with
  | LogNoExifTime _ | LogNoImages _ | LogSkipped _ => WARNING
  | LogExtractFailed _ _ | LogWatermarkFailed _ _ => ERROR
  | LogFound _ | LogProcessing _ | LogDone _ _ => INFO
  end.

(** ** The world outside the interpreter

    The file system and the two imaging libraries, as operations on a state
    [World].  [read_exif] is [open(path, 'rb')] followed by
    [exifread.process_file]; a tag is kept as its [str()].  [pil_measure]
    covers [add_watermark] from [Image.open] to [draw.textbbox] and gives the
    image size and the text box; [pil_draw_save] covers it from [draw.text]
    to [save]. *)
Record os_interface (World : Type) : Type := {
  mkdir : pystr -> World -> World * pyresult unit;
  scandir : pystr -> World -> list pystr;
  read_exif : path -> World -> pyresult (gmap pystr pystr);
  getmtime : path -> World -> pyresult float;
  fromtimestamp : float -> pyresult datetime;
  pil_measure : path -> pystr -> Z -> World -> pyresult ((Z * Z) * (Z * Z * Z * Z));
  pil_draw_save : path -> path -> pystr -> Z -> Z * Z -> (Z * Z * Z) * Z ->
                  World -> World * pyresult unit
}.
Arguments mkdir {World}.
Arguments scandir {World}.
Arguments read_exif {World}.
Arguments getmtime {World}.
Arguments fromtimestamp {World}.
Arguments pil_measure {World}.
Arguments pil_draw_save {World}.

(** [self.supported_formats], a set: its iteration order is not fixed. *)
Definition supported_formats : gset pystr :=
  {[ str ".jpg"; str ".jpeg"; str ".png"; str ".tiff"; str ".tif"; str ".bmp" ]}.

Definition datetime_fields : list pystr :=
  [str "EXIF DateTimeOriginal"; str "EXIF DateTimeDigitized";
   str "EXIF DateTime"; str "Image DateTime"].

(** ** [get_position_coordinates] *)

Definition position_map (image_size text_size : Z * Z) (margin : Z) : gmap pystr (Z * Z) :=
  let '(img_width, img_height) := image_size in
  let '(text_width, text_height) := text_size in
  list_to_map
    [(str "top-left", (margin, margin));
     (str "top-right", (img_width - text_width - margin, margin));
     (str "top-center", ((img_width - text_width) / 2, margin));
     (str "center", ((img_width - text_width) / 2, (img_height - text_height) / 2));
     (str "bottom-left", (margin, img_height - text_height - margin));
     (str "bottom-right", (img_width - text_width - margin, img_height - text_height - margin));
     (str "bottom-center", ((img_width - text_width) / 2, img_height - text_height - margin))].

Definition get_position_coordinates (position : pystr) (image_size text_size : Z * Z)
    (margin : Z) : Z * Z :=
  let pm := position_map image_size text_size margin in
  default (pm !!! str "bottom-right") (pm !! position).

(** The default of the parameter [margin]. *)
Definition default_margin : Z := 20.

(** ** [parse_color] *)

Definition color_map : gmap pystr (Z * Z * Z) :=
  list_to_map
    [(str "white", (255, 255, 255));
     (str "black", (0, 0, 0));
     (str "red", (255, 0, 0));
     (str "green", (0, 255, 0));
     (str "blue", (0, 0, 255));
     (str "yellow", (255, 255, 0));
     (str "cyan", (0, 255, 255));
     (str "magenta", (255, 0, 255))].

(** [tuple(int(hex_color[i:i+2], 16) for i in (0, 2, 4))] *)
Definition hex_triple (rt : runtime) (hex_color : pystr) : pyresult (Z * Z * Z) :=
  r ← int rt 16 (slice 0 2 hex_color);
  g ← int rt 16 (slice 2 4 hex_color);
  b ← int rt 16 (slice 4 6 hex_color);
  mret (r, g, b).

(** [tuple(int(x.strip()) for x in rgb_values)], for three values *)
Definition rgb_triple (rt : runtime) (x0 x1 x2 : pystr) : pyresult (Z * Z * Z) :=
  r ← int rt 10 (strip x0);
  g ← int rt 10 (strip x1);
  b ← int rt 10 (strip x2);
  mret (r, g, b).

Definition white : Z * Z * Z := (255, 255, 255).

(** The branch on [#]: [Some] when it returns (or raises), [None] when the
    code falls through to the next test. *)
Definition parse_hex (rt : runtime) (color_str : pystr) : option (pyresult (Z * Z * Z)) :=
  if startswith color_str (str "#") then
    let hex_color := slice_from 1 color_str in
    if (length hex_color =? 6)%nat then Some (hex_triple rt hex_color) else None
  else None.

(** The branch on [rgb(...)], likewise. *)
Definition parse_rgb (rt : runtime) (color_str : pystr) : option (pyresult (Z * Z * Z)) :=
  if startswith color_str (str "rgb(") && endswith color_str (str ")") then
    match split_on 44%N (slice_to_last 4 color_str) with
    | [x0; x1; x2] => Some (rgb_triple rt x0 x1 x2)
    | _ => None
    end
  else None.

Definition parse_color (rt : runtime) (color_str : pystr) : pyresult (Z * Z * Z) :=
  match color_map !! lower rt color_str with
  | Some c => Ok c
  | None =>
      match parse_hex rt color_str with
      | Some r => r
      | None =>
          match parse_rgb rt color_str with
          | Some r => r
          | None => Ok white
          end
      end
  end.

Section Methods.
Context {World : Type}.
Variable rt : runtime.
Variable io : os_interface World.

(** ** [extract_exif_datetime] *)

(** The loop over [datetime_fields]: [Ok (Some s)] when an iteration returns
    [s], [Ok None] when the loop runs to its end.  Only a [ValueError] of
    the conversion is caught by the inner [try]. *)
Fixpoint scan_datetime_fields (tags : gmap pystr pystr) (fields : list pystr)
    : pyresult (option pystr) :=
  match fields with
  | [] => Ok None
  | field :: fields' =>
      match tags !! field with
      | Some datetime_str =>
          if contains colon datetime_str then
            match strptime_exif rt datetime_str with
            | Ok dt => Ok (Some (strftime_ymd rt dt))
            | Raise ValueError => scan_datetime_fields tags fields'
            | Raise e => Raise e
            end
          else scan_datetime_fields tags fields'
      | None => scan_datetime_fields tags fields'
      end
  end.

(** The body of the outer [try], with what it has logged when it ends. *)
Definition extract_exif_datetime_try (image_path : path) (w : World)
    : list log_record * pyresult pystr :=
  match read_exif io image_path w with
  | Raise e => ([], Raise e)
  | Ok tags =>
      match scan_datetime_fields tags datetime_fields with
      | Raise e => ([], Raise e)
      | Ok (Some s) => ([], Ok s)
      | Ok None =>
          ([LogNoExifTime image_path],
           file_time ← getmtime io image_path w;
           dt ← fromtimestamp io file_time;
           mret (strftime_ymd rt dt))
      end
  end.

(** [None] is Python's [None]. *)
Definition extract_exif_datetime (image_path : path) (w : World)
    : option pystr * list log_record :=
  match extract_exif_datetime_try image_path w with
  | (lg, Ok s) => (Some s, lg)
  | (lg, Raise e) => (None, lg ++ [LogExtractFailed image_path e])
  end.

(** ** [add_watermark] *)

(** [alpha = int(255 * opacity)] *)
Definition watermark_alpha (opacity : float) : pyresult Z :=
  int_of_float (255 * opacity)%float.

Definition add_watermark_try (image_path output_path : path) (watermark_text : pystr)
    (font_size : Z) (color position : pystr) (opacity : float) (w : World)
    : World * pyresult unit :=
  match pil_measure io image_path watermark_text font_size w with
  | Raise e => (w, Raise e)
  | Ok (img_size, (b0, b1, b2, b3)) =>
      let text_width := b2 - b0 in
      let text_height := b3 - b1 in
      let xy := get_position_coordinates position img_size
                  (text_width, text_height) default_margin in
      match parse_color rt color with
      | Raise e => (w, Raise e)
      | Ok rgb_color =>
          match watermark_alpha opacity with
          | Raise e => (w, Raise e)
          | Ok alpha =>
              let rgba_color := (rgb_color, alpha) in
              pil_draw_save io image_path output_path watermark_text font_size
                            xy rgba_color w
          end
      end
  end.

Definition add_watermark (image_path output_path : path) (watermark_text : pystr)
    (font_size : Z) (color position : pystr) (opacity : float) (w : World)
    : bool * World * list log_record :=
  match add_watermark_try image_path output_path watermark_text font_size
          color position opacity w with
  | (w', Ok _) => (true, w', [])
  | (w', Raise e) => (false, w', [LogWatermarkFailed image_path e])
  end.

(** ** [process_directory] *)

(** The state the [for] loop carries. *)
Record tally : Type := {
  success_count : Z;
  fail_count : Z;
  world : World;
  log : list log_record
}.

(** [image_files], filled in the iteration order [formats] of the set
    [supported_formats]. *)
Definition image_files (formats : list pystr) (input_dir : pystr) (w : World) : list path :=
  ext ← formats;
  glob_star rt input_dir (scandir io input_dir w) ext
    ++ glob_star rt input_dir (scandir io input_dir w) (upper_ascii ext).

(** [f"{image_file.stem}_watermark{image_file.suffix}"] under [output_path] *)
Definition output_file_of (output_dir : pystr) (image_file : path) : path :=
  {| parent := output_dir;
     name := stem image_file ++ str "_watermark" ++ suffix image_file |}.

(** One iteration of the loop.  [not datetime_str] holds of [None] and of
    the empty string. *)
Definition process_file (output_dir : pystr) (font_size : Z) (color position : pystr)
    (opacity : float) (st : tally) (image_file : path) : tally :=
  let lg0 := log st ++ [LogProcessing (name image_file)] in
  let '(datetime_str, lg1) := extract_exif_datetime image_file (world st) in
  match datetime_str with
  | Some ((_ :: _) as text) =>
      let output_file := output_file_of output_dir image_file in
      match add_watermark image_file output_file text font_size color position
              opacity (world st) with
      | (true, w', lg2) =>
          {| success_count := success_count st + 1;
             fail_count := fail_count st;
             world := w';
             log := lg0 ++ lg1 ++ lg2 ++ [LogDone (name image_file) (name output_file)] |}
      | (false, w', lg2) =>
          {| success_count := success_count st;
             fail_count := fail_count st + 1;
             world := w';
             log := lg0 ++ lg1 ++ lg2 |}
      end
  | _ =>
      {| success_count := success_count st;
         fail_count := fail_count st + 1;
         world := world st;
         log := lg0 ++ lg1 ++ [LogSkipped (name image_file)] |}
  end.

Definition process_files (output_dir : pystr) (font_size : Z) (color position : pystr)
    (opacity : float) (files : list path) (st : tally) : tally :=
  fold_left (process_file output_dir font_size color position opacity) files st.

(** What the method returns from a final loop state. *)
Definition returned (st : tally) : pyresult (Z * Z) * World * list log_record :=
  (Ok (success_count st, fail_count st), world st, log st).

Definition process_directory (formats : list pystr) (input_dir output_dir : pystr)
    (font_size : Z) (color position : pystr) (opacity : float) (w : World)
    : pyresult (Z * Z) * World * list log_record :=
  match mkdir io output_dir w with
  | (w1, Raise e) => (Raise e, w1, [])
  | (w1, Ok _) =>
      let files := image_files formats input_dir w1 in
      match files with
      | [] => (Ok (0, 0), w1, [LogNoImages input_dir])
      | _ :: _ =>
          returned
            (process_files output_dir font_size color position opacity files
               {| success_count := 0; fail_count := 0; world := w1;
                  log := [LogFound (length files)] |})
      end
  end.

End Methods.

(** ** The console and the shell around the tool

    What [interactive_mode] and [main] add to [os_interface]: the two tests
    of [os.path], and the opening of [watermark.log] that [setup_logging]
    does when the tool is constructed. *)
Record shell_interface (World : Type) : Type := {
  path_exists : pystr -> World -> bool;
  path_isdir : pystr -> World -> bool;
  open_log : World -> World * pyresult unit
}.
Arguments path_exists {World}.
Arguments path_isdir {World}.
Arguments open_log {World}.

(** The questions of [interactive_mode], in the order it asks them. *)
Inductive question : Type :=
| AskDirectory | AskFontSize | AskColor | AskPosition | AskOpacity.

(** One constructor per [print] call of the source (a rule is the line of
    50 equal or minus signs), and one for the prompt of an [input] call. *)
Inductive console_event : Type :=
| Prompt (q : question)
| PrintWelcome
| PrintRule (c : pychar)
| PrintNoSuchDirectory
| PrintStart
| PrintInputDir (input_dir : pystr)
| PrintOutputDir (output_dir : pystr)
| PrintFontSize (font_size : Z)
| PrintColor (color : pystr)
| PrintPosition (position : pystr)
| PrintOpacity (opacity : float)
| PrintDone
| PrintSuccess (n : Z)
| PrintFailed (n : Z)
| PrintErrorMissing (input_dir : pystr)
| PrintErrorNotDirectory (input_dir : pystr).

(** [input()] at the end of the input raises [EOFError]. *)
Definition EOFError : exn := OtherException "EOFError".

(** The default opacity, the float [0.8]. *)
Definition default_opacity : float := 0x1.999999999999ap-1%float.

(** [x or default] on strings *)
Definition or_default (x default : pystr) : pystr :=
  match x with [] => default | _ :: _ => x end.

Section Shell.
Context {World : Type}.
Variable rt : runtime.
Variable bi : builtins.
Variable io : os_interface World.
Variable sh : shell_interface World.

(** ** [interactive_mode] *)

(** The [while True] loop that asks for the directory, on the lines still
    to be read: the directory and the lines left, or [EOFError], with what
    went to the console. *)
Fixpoint ask_directory (stdin : list pystr) (w : World)
    : pyresult (pystr * list pystr) * list console_event :=
  match stdin with
  | [] => (Raise EOFError, [Prompt AskDirectory])
  | line :: stdin' =>
      let input_dir := strip line in
      if path_exists sh input_dir w && path_isdir sh input_dir w
      then (Ok (input_dir, stdin'), [Prompt AskDirectory])
      else
        let '(r, out) := ask_directory stdin' w in
        (r, Prompt AskDirectory :: PrintNoSuchDirectory :: out)
  end.

(** [int(font_size_input) if font_size_input.isdigit() else 24] *)
Definition font_size_of_input (font_size_input : pystr) : pyresult Z :=
  if isdigit (unicode_digit bi) font_size_input then int rt 10 font_size_input else Ok 24.

(** [float(opacity_input) if opacity_input.replace('.', '').isdigit()
    else 0.8] *)
Definition opacity_of_input (opacity_input : pystr) : pyresult float :=
  if isdigit (unicode_digit bi) (remove_char 46%N opacity_input)
  then float_of_str rt (strtod bi) opacity_input
  else Ok default_opacity.

(** The lines printed before and after the batch, by [interactive_mode]
    and, without the first one, by [main]. *)
Definition settings_lines (input_dir output_dir : pystr) (font_size : Z)
    (color position : pystr) (opacity : float) : list console_event :=
  [PrintInputDir input_dir; PrintOutputDir output_dir; PrintFontSize font_size;
   PrintColor color; PrintPosition position; PrintOpacity opacity; PrintRule 45%N].

Definition summary_lines (success_count fail_count : Z) (output_dir : pystr)
    : list console_event :=
  [PrintDone; PrintSuccess success_count; PrintFailed fail_count; PrintOutputDir output_dir].

(** The result of a run: what the method returned or raised, the world, the
    console and the log.  ([logging] also writes the log records to the
    console; the two lists do not keep how they interleave.) *)
Definition run_result : Type :=
  pyresult unit * World * list console_event * list log_record.

(** The calls of [process_directory] and the summary after it, shared by
    [interactive_mode] and [main]. *)
Definition run_batch (formats : list pystr) (input_dir output_dir : pystr) (font_size : Z)
    (color position : pystr) (opacity : float) (w : World) (out : list console_event)
    : run_result :=
  match process_directory rt io formats input_dir output_dir font_size color position
          opacity w with
  | (Raise e, w', lg) => (Raise e, w', out, lg)
  | (Ok (success_count, fail_count), w', lg) =>
      (Ok (), w', out ++ summary_lines success_count fail_count output_dir, lg)
  end.

(** [input(...).strip()] *)
Definition read_line (stdin : list pystr) : pyresult (pystr * list pystr) :=
  match stdin with
  | [] => Raise EOFError
  | line :: stdin' => Ok (strip line, stdin')
  end.

Definition interactive_mode (formats : list pystr) (stdin : list pystr) (w : World)
    : run_result :=
  let out0 := [PrintWelcome; PrintRule 61%N] in
  match ask_directory stdin w with
  | (Raise e, out1) => (Raise e, w, out0 ++ out1, [])
  | (Ok (input_dir, stdin1), out1) =>
      let out1 := out0 ++ out1 ++ [Prompt AskFontSize] in
      match read_line stdin1 with
      | Raise e => (Raise e, w, out1, [])
      | Ok (font_size_input, stdin2) =>
      match font_size_of_input font_size_input with
      | Raise e => (Raise e, w, out1, [])
      | Ok font_size =>
      let out2 := out1 ++ [Prompt AskColor] in
      match read_line stdin2 with
      | Raise e => (Raise e, w, out2, [])
      | Ok (color_input, stdin3) =>
      let color := or_default color_input (str "white") in
      let out3 := out2 ++ [Prompt AskPosition] in
      match read_line stdin3 with
      | Raise e => (Raise e, w, out3, [])
      | Ok (position_input, stdin4) =>
      let position := or_default position_input (str "bottom-right") in
      let out4 := out3 ++ [Prompt AskOpacity] in
      match read_line stdin4 with
      | Raise e => (Raise e, w, out4, [])
      | Ok (opacity_input, _) =>
      match opacity_of_input opacity_input with
      | Raise e => (Raise e, w, out4, [])
      | Ok opacity =>
          let output_dir := default_output_dir (path_flavour bi) input_dir in
          run_batch formats input_dir output_dir font_size color position opacity w
            (out4 ++ [PrintStart]
               ++ settings_lines input_dir output_dir font_size color position opacity)
      end end end end end end
  end.

(** ** [main]

    [args] is the namespace [parser.parse_args()] returned: [arg_input] and
    [arg_output] are [None] when the option is not given. *)
Record namespace : Type := {
  arg_input : option pystr;
  arg_font_size : Z;
  arg_color : pystr;
  arg_position : pystr;
  arg_opacity : float;
  arg_output : option pystr
}.

(** How the script ends. *)
Inductive exit : Type :=
| Returned
| SystemExit (code : Z)
| Uncaught (e : exn).

Definition exit_of (r : pyresult unit) : exit :=
  match r with Ok _ => Returned | Raise e => Uncaught e end.

Definition main (formats : list pystr) (args : namespace) (stdin : list pystr) (w : World)
    : exit * World * list console_event * list log_record :=
  match open_log sh w with
  | (w0, Raise e) => (Uncaught e, w0, [], [])
  | (w0, Ok _) =>
      match arg_input args with
      | None | Some [] =>
          let '(r, w', out, lg) := interactive_mode formats stdin w0 in
          (exit_of r, w', out, lg)
      | Some ((_ :: _) as input_dir) =>
          if negb (path_exists sh input_dir w0)
          then (SystemExit 1, w0, [PrintErrorMissing input_dir], [])
          else if negb (path_isdir sh input_dir w0)
          then (SystemExit 1, w0, [PrintErrorNotDirectory input_dir], [])
          else
            let output_dir :=
              match arg_output args with
              | Some ((_ :: _) as output) => output
              | _ => default_output_dir (path_flavour bi) input_dir
              end in
            let '(r, w', out, lg) :=
              run_batch formats input_dir output_dir (arg_font_size args) (arg_color args)
                (arg_position args) (arg_opacity args) w0
                (settings_lines input_dir output_dir (arg_font_size args) (arg_color args)
                   (arg_position args) (arg_opacity args)) in
            (exit_of r, w', out, lg)
      end
  end.

End Shell.

End WatermarkTool.

(* ================================================================== *)
(** * Sample runtimes and a sample world *)
(* ================================================================== *)

Module Sample.
Import Py WatermarkTool.

(** CPython 3.11 on Linux, with the Unicode tables cut down to ASCII. *)
Definition linux_runtime : runtime :=
  {| unicode_lower := fun s i => option_list (s !! i);
     unicode_decimal := fun _ => None;
     int_max_str_digits := 4300;
     strftime_pads_year := false;
     posix_flavour := true;
     unicode_icase := fun _ _ => false |}.

(** The same on Windows. *)
Definition windows_runtime : runtime :=
  {| unicode_lower := fun s i => option_list (s !! i);
     unicode_decimal := fun _ => None;
     int_max_str_digits := 4300;
     strftime_pads_year := true;
     posix_flavour := false;
     unicode_icase := fun _ _ => false |}.

Definition tags_with (field value : string) : gmap pystr pystr :=
  {[ str field := str value ]}.

Definition epoch : datetime :=
  {| year := 1970; month := 1; day := 1; hour := 0; minute := 0; second := 0 |}.

(** A directory of five entries.  The world is the list of the files written
    so far.  [locked.jpg] cannot be opened (its modification time can still
    be read), [a.jpg] carries an EXIF date, the others carry no tag; every
    image is 1000 x 800 and every text box 100 x 40. *)
Definition entries : list pystr :=
  [str "a.jpg"; str "b.Jpg"; str "c.PNG"; str "locked.jpg"; str "notes.txt"].

Definition sample_io : os_interface (list path) :=
  {| mkdir := fun _ w => (w, Ok ());
     scandir := fun _ _ => entries;
     read_exif := fun p _ =>
       if bool_decide (name p = str "locked.jpg") then Raise OSError
       else if bool_decide (name p = str "a.jpg")
       then Ok (tags_with "EXIF DateTime" "2024:01:15 10:30:00")
       else Ok ∅;
     getmtime := fun _ _ => Ok 0%float;
     fromtimestamp := fun _ => Ok epoch;
     pil_measure := fun _ _ _ _ => Ok ((1000, 800), (0, 0, 100, 40));
     pil_draw_save := fun _ output_path _ _ _ _ w => (w ++ [output_path], Ok ()) |}.

(** One iteration order of [supported_formats]. *)
Definition formats : list pystr :=
  [str ".jpg"; str ".jpeg"; str ".png"; str ".tiff"; str ".tif"; str ".bmp"].

(** [strtod] on the literals its fast path converts exactly: at most 15
    digits and a power of ten up to 22, where one correctly rounded
    multiplication or division of two exact floats gives the result. *)
Definition strtod_small (d : decimal_literal) : float :=
  let m := of_uint63 (Uint63.of_Z (digits_value 10 (lit_integer d ++ lit_fraction d))) in
  let e := (match lit_exponent d with
            | Some (true, ed) => - digits_value 10 ed
            | Some (false, ed) => digits_value 10 ed
            | None => 0
            end) - Z.of_nat (length (lit_fraction d)) in
  let p := of_uint63 (Uint63.of_Z (10 ^ Z.abs e)) in
  let v := if e <? 0 then (m / p)%float else (m * p)%float in
  if lit_negative d then (- v)%float else v.

(** Superscript two is the one digit outside ASCII here; it is no decimal
    digit. *)
Definition sample_builtins : builtins :=
  {| unicode_digit := fun c => (c =? 178)%N;
     strtod := strtod_small;
     path_flavour := posix_paths |}.

(** The only directory is [in]; the log file can be opened. *)
Definition sample_shell : shell_interface (list path) :=
  {| path_exists := fun d _ => bool_decide (d = str "in");
     path_isdir := fun d _ => bool_decide (d = str "in");
     open_log := fun w => (w, Ok ()) |}.

Definition sample_args (input_dir : string) : namespace :=
  {| arg_input := Some (str input_dir); arg_font_size := 24; arg_color := str "white";
     arg_position := str "bottom-right"; arg_opacity := default_opacity;
     arg_output := None |}.

(** The files of the sample directory the tool can mark: all but the one
    that cannot be opened. *)
Definition good (f : path) : bool :=
  negb (bool_decide (name f = str "locked.jpg")).

End Sample.

(* ================================================================== *)
(** * Properties *)
(* ================================================================== *)

Import Py WatermarkTool.

(** Turns boolean comparisons of code points in the context into
    propositions [lia] reads. *)
Ltac nbool :=
  repeat match goal with
  | H : (_ && _) = true |- _ => apply andb_true_iff in H as [? ?]
  | H : (_ || _) = false |- _ => apply orb_false_iff in H as [? ?]
  | H : (_ <=? _)%N = true |- _ => apply N.leb_le in H
  | H : (_ <=? _)%N = false |- _ => apply N.leb_gt in H
  | H : (_ <? _)%N = true |- _ => apply N.ltb_lt in H
  | H : (_ <? _)%N = false |- _ => apply N.ltb_ge in H
  | H : (_ =? _)%N = true |- _ => apply N.eqb_eq in H
  | H : (_ =? _)%N = false |- _ => apply N.eqb_neq in H
  end.

(** ** [int] *)

Section IntFacts.
Variable rt : runtime.

(** A failed conversion is a [ValueError], whatever the base. *)
Lemma int_raises_ValueError base s e : int rt base s = Raise e -> e = ValueError.
Proof.
  unfold int, int_of_ascii. intros H.
  repeat case_match; congruence.
Qed.

Lemma ascii_codes_complete c : (c < 128)%N -> c ∈ map N.of_nat (seq 0 128).
Proof.
  intros H. apply list_elem_of_fmap. exists (N.to_nat c). split; [lia|].
  apply list_elem_of_In, in_seq. lia.
Qed.

Lemma hex_digit_ascii c : is_digit_in 16 c = true -> (c < 128)%N.
Proof.
  unfold is_digit_in, digit_value, in_range. intros H.
  repeat case_match; try discriminate; nbool; lia.
Qed.

(** Two hex digits convert to the byte they spell.  The 128 x 128 pairs of
    ASCII characters are checked by computation. *)
Lemma hex_pairs_checked :
  forallb (fun a => forallb (fun b =>
    implb (is_digit_in 16 a && is_digit_in 16 b)
      match int rt 16 [a; b], digit_value a, digit_value b with
      | Ok v, Some x, Some y => (v =? Z.of_N (16 * x + y))
      | _, _, _ => false
      end) (map N.of_nat (seq 0 128))) (map N.of_nat (seq 0 128)) = true.
Proof. vm_compute. reflexivity. Qed.

Lemma int_hex_pair a b x y :
  digit_value a = Some x -> digit_value b = Some y -> (x < 16)%N -> (y < 16)%N ->
  int rt 16 [a; b] = Ok (Z.of_N (16 * x + y)).
Proof.
  intros Ha Hb Hx Hy.
  assert (Da : is_digit_in 16 a = true)
    by (unfold is_digit_in; rewrite Ha; apply N.ltb_lt; lia).
  assert (Db : is_digit_in 16 b = true)
    by (unfold is_digit_in; rewrite Hb; apply N.ltb_lt; lia).
  pose proof hex_pairs_checked as H.
  rewrite forallb_forall in H.
  specialize (H a (proj1 (list_elem_of_In _ _)
                     (ascii_codes_complete a (hex_digit_ascii a Da)))).
  rewrite forallb_forall in H.
  specialize (H b (proj1 (list_elem_of_In _ _)
                     (ascii_codes_complete b (hex_digit_ascii b Db)))).
  rewrite Da, Db, Ha, Hb in H. cbn [implb andb] in H.
  destruct (int rt 16 [a; b]) as [v|e]; [|discriminate H].
  apply Z.eqb_eq in H. congruence.
Qed.

End IntFacts.

(** ** Results of the exception monad *)

(** Lemmas that name the exception a conversion can raise. *)
Create HintDb raises.

Lemma bind_raise_inv {A B} (m : pyresult A) (f : A -> pyresult B) e :
  m ≫= f = Raise e -> m = Raise e \/ exists a, m = Ok a /\ f a = Raise e.
Proof. destruct m as [a|e']; cbn; [right; eauto|left; congruence]. Qed.

(** ** [parse_color] *)

Section ColorParser.
Variable rt : runtime.

Lemma color_map_keys k c :
  color_map !! k = Some c ->
  k ∈ [str "white"; str "black"; str "red"; str "green"; str "blue";
       str "yellow"; str "cyan"; str "magenta"].
Proof.
  intros H. apply elem_of_list_to_map_2 in H.
  apply (list_elem_of_fmap_2 fst) in H. exact H.
Qed.

Lemma lower_cons_ascii c s :
  is_ascii c = true -> exists t, lower rt (c :: s) = ascii_lower c :: t.
Proof. intros H. unfold lower. cbn [lower_from]. rewrite H. eexists. reflexivity. Qed.

Lemma not_named_hash h : color_map !! lower rt (str "#" ++ h) = None.
Proof.
  change (str "#" ++ h) with (35%N :: h).
  destruct (lower_cons_ascii 35%N h eq_refl) as [t Ht]. rewrite Ht.
  destruct (color_map !! _) eqn:E; [|reflexivity].
  apply color_map_keys in E.
  repeat (apply elem_of_cons in E as [E|E]; [discriminate E|]).
  by apply elem_of_nil in E.
Qed.

Lemma not_named_rgb body : color_map !! lower rt (str "rgb(" ++ body) = None.
Proof.
  assert (exists t, lower rt (str "rgb(" ++ body) = 114%N :: 103%N :: t) as [t Ht].
  { unfold lower. cbn. eexists. reflexivity. }
  rewrite Ht.
  destruct (color_map !! _) eqn:E; [|reflexivity].
  apply color_map_keys in E.
  repeat (apply elem_of_cons in E as [E|E]; [discriminate E|]).
  by apply elem_of_nil in E.
Qed.

Lemma startswith_app p s : startswith (p ++ s) p = true.
Proof. induction p as [|a p IH]; [reflexivity|]. cbn. by rewrite N.eqb_refl. Qed.

Lemma endswith_app p s : endswith (s ++ p) p = true.
Proof. unfold endswith. rewrite rev_app_distr. apply startswith_app. Qed.

Lemma endswith_app' p q s : endswith (q ++ s ++ p) p = true.
Proof. rewrite app_assoc. apply endswith_app. Qed.

Lemma slice_to_last_rgb body : slice_to_last 4 (str "rgb(" ++ body ++ str ")") = body.
Proof.
  unfold slice_to_last. cbn [str list_ascii_of_string map app drop].
  rewrite !length_cons, length_app. cbn [length].
  replace (S (S (S (S (length body + 1)))) - 1 - 4)%nat with (length body) by lia.
  rewrite drop_0. by rewrite take_app_length.
Qed.

Lemma hex_triple_raises h e : hex_triple rt h = Raise e -> e = ValueError.
Proof.
  unfold hex_triple. intros H.
  repeat (apply bind_raise_inv in H as [H|(? & _ & H)];
          [by eapply int_raises_ValueError|]).
  discriminate H.
Qed.

Lemma rgb_triple_raises x0 x1 x2 e : rgb_triple rt x0 x1 x2 = Raise e -> e = ValueError.
Proof.
  unfold rgb_triple. intros H.
  repeat (apply bind_raise_inv in H as [H|(? & _ & H)];
          [by eapply int_raises_ValueError|]).
  discriminate H.
Qed.

#[local] Hint Resolve hex_triple_raises rgb_triple_raises : raises.

Lemma parse_color_raises s e : parse_color rt s = Raise e -> e = ValueError.
Proof.
  unfold parse_color, parse_hex, parse_rgb. intros H.
  repeat case_match; simplify_eq; eauto with raises.
Qed.

Lemma parse_hex_length h :
  parse_hex rt (str "#" ++ h) = if (length h =? 6)%nat then Some (hex_triple rt h) else None.
Proof. reflexivity. Qed.

Lemma parse_hex_rgb body : parse_hex rt (str "rgb(" ++ body) = None.
Proof. reflexivity. Qed.

Lemma parse_rgb_hash h : parse_rgb rt (str "#" ++ h) = None.
Proof. reflexivity. Qed.

Lemma parse_rgb_body body :
  parse_rgb rt (str "rgb(" ++ body ++ str ")") =
  match split_on 44%N body with
  | [x0; x1; x2] => Some (rgb_triple rt x0 x1 x2)
  | _ => None
  end.
Proof.
  unfold parse_rgb. rewrite startswith_app, endswith_app', slice_to_last_rgb. reflexivity.
Qed.

Lemma split_on_fresh sep a : sep ∉ a -> split_on sep a = [a].
Proof.
  induction a as [|c a IH]; [reflexivity|]. intros H.
  apply not_elem_of_cons in H as [Hc Ha]. cbn.
  destruct (N.eqb_spec c sep) as [->|_]; [done|].
  by rewrite (IH Ha).
Qed.

Lemma split_on_app sep a b :
  sep ∉ a -> split_on sep (a ++ sep :: b) = a :: split_on sep b.
Proof.
  induction a as [|c a IH]; intros H.
  - cbn. by rewrite N.eqb_refl.
  - apply not_elem_of_cons in H as [Hc Ha]. cbn.
    destruct (N.eqb_spec c sep) as [->|_]; [done|].
    by rewrite (IH Ha).
Qed.

Lemma split_on_three x0 x1 x2 :
  44%N ∉ x0 -> 44%N ∉ x1 -> 44%N ∉ x2 ->
  split_on 44%N (x0 ++ str "," ++ x1 ++ str "," ++ x2) = [x0; x1; x2].
Proof.
  intros H0 H1 H2. change (str ",") with [44%N]. cbn [app].
  by rewrite !split_on_app, split_on_fresh.
Qed.

Lemma parse_color_rgb3 x0 x1 x2 :
  44%N ∉ x0 -> 44%N ∉ x1 -> 44%N ∉ x2 ->
  parse_color rt (str "rgb(" ++ x0 ++ str "," ++ x1 ++ str "," ++ x2 ++ str ")")
  = rgb_triple rt x0 x1 x2.
Proof.
  intros H0 H1 H2. unfold parse_color.
  replace (str "rgb(" ++ x0 ++ str "," ++ x1 ++ str "," ++ x2 ++ str ")")
    with (str "rgb(" ++ (x0 ++ str "," ++ x1 ++ str "," ++ x2) ++ str ")")
    by (by rewrite <- !app_assoc).
  by rewrite not_named_rgb, parse_hex_rgb, parse_rgb_body, split_on_three.
Qed.

Lemma parse_color_hex6 h :
  length h = 6%nat -> parse_color rt (str "#" ++ h) = hex_triple rt h.
Proof.
  intros Hlen. unfold parse_color.
  by rewrite not_named_hash, parse_hex_length, Hlen.
Qed.

(** C1 (amended).  [parse_color] returns an RGB triple or raises the
    [ValueError] of a failed conversion, and nothing else.  A wrong hex
    length, a wrong rgb arity and a string of no recognised shape are
    resolved silently to white.  A ['#'] with six characters, or an
    [rgb(...)] of three parts, whose content does not convert raises the
    [ValueError]: that error does reach the caller. *)
Theorem C1_parse_color_errors (color_str : pystr) :
  ((exists c, parse_color rt color_str = Ok c)
   \/ parse_color rt color_str = Raise ValueError)
  /\ (forall h, color_str = str "#" ++ h -> length h <> 6%nat ->
      parse_color rt color_str = Ok white)
  /\ (forall body, color_str = str "rgb(" ++ body ++ str ")" ->
      length (split_on 44%N body) <> 3%nat ->
      parse_color rt color_str = Ok white)
  /\ (color_map !! lower rt color_str = None ->
      startswith color_str (str "#") = false ->
      startswith color_str (str "rgb(") && endswith color_str (str ")") = false ->
      parse_color rt color_str = Ok white)
  /\ (forall h, color_str = str "#" ++ h -> length h = 6%nat ->
      is_ok (hex_triple rt h) = false ->
      parse_color rt color_str = Raise ValueError)
  /\ (forall x0 x1 x2,
      color_str = str "rgb(" ++ x0 ++ str "," ++ x1 ++ str "," ++ x2 ++ str ")" ->
      44%N ∉ x0 -> 44%N ∉ x1 -> 44%N ∉ x2 ->
      is_ok (rgb_triple rt x0 x1 x2) = false ->
      parse_color rt color_str = Raise ValueError).
Proof.
  repeat split.
  - destruct (parse_color rt color_str) as [c|e] eqn:E; [left; eauto|right].
    by rewrite (parse_color_raises _ _ E).
  - intros h -> Hlen. unfold parse_color.
    rewrite not_named_hash, parse_hex_length, parse_rgb_hash.
    by apply Nat.eqb_neq in Hlen as ->.
  - intros body -> Hlen. unfold parse_color.
    rewrite not_named_rgb, parse_hex_rgb, parse_rgb_body.
    destruct (split_on 44%N body) as [|? [|? [|? [|? ?]]]]; try reflexivity.
    by destruct Hlen.
  - intros Hn Hh Hr. unfold parse_color, parse_hex, parse_rgb.
    by rewrite Hn, Hh, Hr.
  - intros h -> Hlen Hbad. rewrite parse_color_hex6 by done.
    destruct (hex_triple rt h) as [c|e] eqn:E; [discriminate Hbad|].
    by rewrite (hex_triple_raises _ _ E).
  - intros x0 x1 x2 -> H0 H1 H2 Hbad. rewrite parse_color_rgb3 by done.
    destruct (rgb_triple rt x0 x1 x2) as [c|e] eqn:E; [discriminate Hbad|].
    by rewrite (rgb_triple_raises _ _ _ _ E).
Qed.

(** C7 (amended).  [parse_color] resolves in this order: the named colours,
    compared in lower case; then ['#'] followed by exactly six characters,
    whose three pairs are converted in base 16 (three bytes when all six are
    hex digits, the error of the conversion otherwise); then [rgb(...)] with
    exactly three comma-separated parts, each stripped and converted in base
    10; and white when no guard holds.  The four examples of the
    specification hold. *)
Theorem C7_parse_color_order :
  (forall color_str c,
      color_map !! lower rt color_str = Some c -> parse_color rt color_str = Ok c)
  /\ (forall h, length h = 6%nat ->
      parse_color rt (str "#" ++ h) = hex_triple rt h)
  /\ (forall a1 a2 b1 b2 c1 c2 r1 r2 g1 g2 v1 v2,
      digit_value a1 = Some r1 -> digit_value a2 = Some r2 ->
      digit_value b1 = Some g1 -> digit_value b2 = Some g2 ->
      digit_value c1 = Some v1 -> digit_value c2 = Some v2 ->
      (r1 < 16 /\ r2 < 16 /\ g1 < 16 /\ g2 < 16 /\ v1 < 16 /\ v2 < 16)%N ->
      parse_color rt (str "#" ++ [a1; a2; b1; b2; c1; c2])
      = Ok (Z.of_N (16 * r1 + r2), Z.of_N (16 * g1 + g2), Z.of_N (16 * v1 + v2)))
  /\ (forall x0 x1 x2, 44%N ∉ x0 -> 44%N ∉ x1 -> 44%N ∉ x2 ->
      parse_color rt (str "rgb(" ++ x0 ++ str "," ++ x1 ++ str "," ++ x2 ++ str ")")
      = (r ← int rt 10 (strip x0); g ← int rt 10 (strip x1);
         b ← int rt 10 (strip x2); mret (r, g, b)))
  /\ (forall color_str,
      color_map !! lower rt color_str = None ->
      (startswith color_str (str "#") = false \/ length color_str <> 7%nat) ->
      (startswith color_str (str "rgb(") && endswith color_str (str ")") = false
       \/ length (split_on 44%N (slice_to_last 4 color_str)) <> 3%nat) ->
      parse_color rt color_str = Ok white)
  /\ parse_color rt (str "red") = Ok (255, 0, 0)
  /\ parse_color rt (str "Red") = Ok (255, 0, 0)
  /\ parse_color rt (str "#00FF00") = Ok (0, 255, 0)
  /\ parse_color rt (str "rgb(10, 20, 30)") = Ok (10, 20, 30)
  /\ parse_color rt (str "bogus") = Ok (255, 255, 255).
Proof.
  split; [|split; [|split; [|split; [|split]]]].
  - intros color_str c H. unfold parse_color. by rewrite H.
  - apply parse_color_hex6.
  - intros a1 a2 b1 b2 c1 c2 r1 r2 g1 g2 v1 v2 A1 A2 B1 B2 C1 C2 (?&?&?&?&?&?).
    rewrite parse_color_hex6 by reflexivity. unfold hex_triple, slice. cbn [drop take Nat.sub].
    rewrite (int_hex_pair rt a1 a2 r1 r2), (int_hex_pair rt b1 b2 g1 g2),
      (int_hex_pair rt c1 c2 v1 v2) by assumption.
    reflexivity.
  - apply parse_color_rgb3.
  - intros color_str Hn Hh Hr. unfold parse_color, parse_hex, parse_rgb. rewrite Hn.
    assert ((if startswith color_str (str "#")
             then if (length (slice_from 1 color_str) =? 6)%nat
                  then Some (hex_triple rt (slice_from 1 color_str)) else None
             else None) = None) as ->.
    { destruct Hh as [->|Hlen]; [reflexivity|].
      destruct (startswith color_str (str "#")); [|reflexivity].
      unfold slice_from. rewrite length_drop.
      by destruct (Nat.eqb_spec (length color_str - 1) 6); [lia|]. }
    destruct Hr as [->|Hlen]; [reflexivity|].
    destruct (_ && _); [|reflexivity].
    destruct (split_on 44%N _) as [|? [|? [|? [|? ?]]]]; try reflexivity.
    by destruct Hlen.
  - repeat split; vm_compute; reflexivity.
Qed.
End ColorParser.

(** C1 as stated fails: non-numeric content in an [rgb(...)] of three parts
    is not resolved to white, the conversion error reaches the caller. *)
Lemma C1_counterexample :
  parse_color Sample.linux_runtime (str "rgb(1,2,x)") = Raise ValueError.
Proof. vm_compute. reflexivity. Qed.

(** C7 as stated fails: ["#GGGGGG"] is no named colour, is not ['#'] with
    six hex characters and is not an [rgb(...)], yet the result is not the
    default white (the conversion raises). *)
Lemma C7_counterexample :
  color_map !! lower Sample.linux_runtime (str "#GGGGGG") = None
  /\ forallb (is_digit_in 16) (slice_from 1 (str "#GGGGGG")) = false
  /\ startswith (str "#GGGGGG") (str "rgb(") = false
  /\ parse_color Sample.linux_runtime (str "#GGGGGG") <> Ok white.
Proof. repeat split; try (vm_compute; reflexivity). vm_compute. discriminate. Qed.

(** ** [get_position_coordinates] *)

(** C6.  [get_position_coordinates] is a total function: it returns a pair
    for all arguments; a keyword that is not in the table gives the result
    of ["bottom-right"]; coordinates are not clamped (they are negative when
    the text is larger than the image); centring uses floor division; and
    the two examples of the specification hold. *)
Theorem C6_position_total :
  (forall position image_size text_size margin,
      exists x y, get_position_coordinates position image_size text_size margin = (x, y))
  /\ (forall position image_size text_size margin,
      position_map image_size text_size margin !! position = None ->
      get_position_coordinates position image_size text_size margin
      = get_position_coordinates (str "bottom-right") image_size text_size margin)
  /\ (forall img_width img_height text_width text_height margin,
      get_position_coordinates (str "bottom-right") (img_width, img_height)
        (text_width, text_height) margin
      = (img_width - text_width - margin, img_height - text_height - margin))
  /\ (forall img_width img_height text_width text_height margin,
      get_position_coordinates (str "center") (img_width, img_height)
        (text_width, text_height) margin
      = ((img_width - text_width) / 2, (img_height - text_height) / 2))
  /\ get_position_coordinates (str "center") (1000, 800) (100, 40) default_margin = (450, 380)
  /\ get_position_coordinates (str "bottom-right") (1000, 800) (100, 40) 20 = (880, 740)
  /\ get_position_coordinates (str "foo") (1000, 800) (100, 40) 20
     = get_position_coordinates (str "bottom-right") (1000, 800) (100, 40) 20
  /\ get_position_coordinates (str "top-right") (100, 80) (300, 40) 20 = (-220, 20).
Proof.
  split; [|split; [|split; [|split]]].
  - intros position image_size text_size margin.
    destruct (get_position_coordinates _ _ _ _) as [x y]. eauto.
  - intros position image_size text_size margin H.
    unfold get_position_coordinates. rewrite H. cbn [default].
    rewrite lookup_total_alt.
    by destruct (position_map image_size text_size margin !! str "bottom-right").
  - intros. vm_compute. reflexivity.
  - intros. vm_compute. reflexivity.
  - repeat split; vm_compute; reflexivity.
Qed.

Lemma C6_witness :
  get_position_coordinates (str "foo") (1000, 800) (100, 40) 20
  = get_position_coordinates (str "bottom-right") (1000, 800) (100, 40) 20.
Proof.
  apply (proj1 (proj2 C6_position_total)). vm_compute. reflexivity.
Defined.


(** ** [strptime] and [extract_exif_datetime] *)

Section MetadataReader.
Context {World : Type}.
Variable rt : runtime.
Variable io : os_interface World.

Lemma strptime_raises_ValueError s e : strptime_exif rt s = Raise e -> e = ValueError.
Proof.
  unfold strptime_exif. intros H.
  repeat case_match; simplify_eq; try reflexivity.
  repeat (apply bind_raise_inv in H as [H|(? & _ & H)];
          [by eapply int_raises_ValueError|]).
  by case_match; simplify_eq.
Qed.

Lemma match_classes_split cs s m r :
  match_classes cs s = Some (m, r) -> s = m ++ r.
Proof.
  revert s m r. induction cs as [|p cs IH]; intros s m r H.
  - cbn in H. destruct s; by simplify_eq.
  - destruct s as [|c s]; [discriminate H|]. cbn in H.
    destruct (p c); [|discriminate H].
    destruct (match_classes cs s) as [[m' r']|] eqn:E; [|discriminate H].
    simplify_eq. cbn. f_equal. by apply IH.
Qed.

Lemma match_item_single cs s :
  match_item (ReGroup [cs]) s = option_list (match_classes cs s).
Proof. cbn. by destruct (match_classes cs s). Qed.

(** A string the pattern matches has a colon after the year. *)
Lemma re_match_colon items s x :
  x ∈ re_match (re_Y rt :: ReLit colon :: items) s -> contains colon s = true.
Proof.
  intros H. cbn [re_match] in H.
  apply list_elem_of_bind in H as ([m r] & H & Hm).
  apply list_elem_of_bind in H as ([ms r'] & _ & H).
  apply list_elem_of_bind in H as ([m1 r1] & _ & H).
  unfold re_Y in Hm. rewrite match_item_single in Hm.
  destruct (match_classes _ s) as [[m0 r0]|] eqn:E; [|by apply elem_of_nil in Hm].
  apply list_elem_of_singleton in Hm. injection Hm as <- <-.
  apply match_classes_split in E as ->.
  destruct r as [|c r]; cbn [match_item] in H; [by apply elem_of_nil in H|].
  destruct (N.eqb_spec colon c) as [<-|_]; [|by apply elem_of_nil in H].
  unfold contains. rewrite existsb_app. cbn. by rewrite orb_true_r.
Qed.

Lemma strptime_ok_colon s dt : strptime_exif rt s = Ok dt -> contains colon s = true.
Proof.
  unfold strptime_exif. intros H.
  destruct (re_match (exif_pattern rt) s) as [|x l] eqn:E; [discriminate H|].
  apply (re_match_colon (tail (tail (exif_pattern rt))) s x).
  change (x ∈ re_match (exif_pattern rt) s). rewrite E. by left.
Qed.

Lemma scan_skips tags pre rest :
  (forall f v, f ∈ pre -> tags !! f = Some v -> is_ok (strptime_exif rt v) = false) ->
  scan_datetime_fields rt tags (pre ++ rest) = scan_datetime_fields rt tags rest.
Proof.
  induction pre as [|f pre IH]; intros H; [reflexivity|].
  cbn [app scan_datetime_fields].
  rewrite IH by (intros; eapply H; [by right|done]).
  destruct (tags !! f) as [v|] eqn:Ev; [|reflexivity].
  specialize (H f v (list_elem_of_here _ _) Ev).
  destruct (contains colon v); [|reflexivity].
  destruct (strptime_exif rt v) as [dt|e] eqn:Es; [discriminate H|].
  by rewrite (strptime_raises_ValueError _ _ Es).
Qed.

Lemma scan_hit tags field rest v dt :
  tags !! field = Some v -> strptime_exif rt v = Ok dt ->
  scan_datetime_fields rt tags (field :: rest) = Ok (Some (strftime_ymd rt dt)).
Proof.
  intros Hv Hs. cbn. by rewrite Hv, (strptime_ok_colon _ _ Hs), Hs.
Qed.

Lemma scan_none tags fields :
  (forall f v, f ∈ fields -> tags !! f = Some v -> is_ok (strptime_exif rt v) = false) ->
  scan_datetime_fields rt tags fields = Ok None.
Proof.
  intros H. rewrite <- (app_nil_r fields). by rewrite scan_skips.
Qed.

Lemma scan_never_raises tags fields e :
  scan_datetime_fields rt tags fields <> Raise e.
Proof.
  induction fields as [|f fields IH]; [discriminate|]. cbn.
  destruct (tags !! f) as [v|]; [|exact IH].
  destruct (contains colon v); [|exact IH].
  destruct (strptime_exif rt v) as [dt|e'] eqn:Es; [discriminate|].
  by rewrite (strptime_raises_ValueError _ _ Es).
Qed.

Lemma strptime_example :
  strptime_exif rt (str "2024:01:15 10:30:00")
  = Ok {| year := 2024; month := 1; day := 15; hour := 10; minute := 30; second := 0 |}.
Proof. vm_compute. reflexivity. Qed.

(** C5.  The four date-time tags are tried in the fixed order
    DateTimeOriginal, DateTimeDigitized, EXIF DateTime, Image DateTime, and
    the result is the reformatted value of the first tag that is present
    and parses as [YYYY:MM:DD HH:MM:SS].  When one field carries
    [2024:01:15 10:30:00] and no other field carries a value that parses,
    the result is the display form of 2024-01-15, whichever field it is. *)
Theorem C5_extract_priority (image_path : path) (w : World) (tags : gmap (list N) (list N)) :
  read_exif io image_path w = Ok tags ->
  datetime_fields = [str "EXIF DateTimeOriginal"; str "EXIF DateTimeDigitized";
                     str "EXIF DateTime"; str "Image DateTime"]
  /\ (forall pre field post v dt,
      datetime_fields = pre ++ field :: post ->
      (forall f' v', f' ∈ pre -> tags !! f' = Some v' ->
                     is_ok (strptime_exif rt v') = false) ->
      tags !! field = Some v -> strptime_exif rt v = Ok dt ->
      extract_exif_datetime rt io image_path w = (Some (strftime_ymd rt dt), []))
  /\ (forall field,
      field ∈ datetime_fields ->
      tags !! field = Some (str "2024:01:15 10:30:00") ->
      (forall f' v', f' ∈ datetime_fields -> f' <> field -> tags !! f' = Some v' ->
                     is_ok (strptime_exif rt v') = false) ->
      extract_exif_datetime rt io image_path w
      = (Some (str "2024" ++ [nian] ++ str "01" ++ [yue] ++ str "15" ++ [ri]), [])).
Proof.
  intros Hread.
  assert (Hgen : forall pre field post v dt,
      datetime_fields = pre ++ field :: post ->
      (forall f' v', f' ∈ pre -> tags !! f' = Some v' ->
                     is_ok (strptime_exif rt v') = false) ->
      tags !! field = Some v -> strptime_exif rt v = Ok dt ->
      extract_exif_datetime rt io image_path w = (Some (strftime_ymd rt dt), [])).
  { intros pre field post v dt Hsplit Hpre Hv Hs.
    unfold extract_exif_datetime, extract_exif_datetime_try.
    rewrite Hread, Hsplit, (scan_skips _ _ _ Hpre), (scan_hit _ _ _ _ _ Hv Hs).
    reflexivity. }
  split; [reflexivity|]. split; [exact Hgen|].
  intros field Hin Hv Hothers.
  apply list_elem_of_split_l in Hin as (pre & post & Hsplit & Hfresh).
  rewrite (Hgen pre field post _ _ Hsplit) with (3 := strptime_example); [| |exact Hv].
  - unfold strftime_ymd. by destruct (strftime_pads_year rt).
  - intros f' v' Hf' Hv'. apply (Hothers f' v'); [|congruence|done].
    rewrite Hsplit. apply elem_of_app. by left.
Qed.

(** C2 (amended).  When the file and its metadata are read without an
    exception and no date tag is usable (none of the four fields is present
    with a value that parses), and the modification time can be read,
    [extract_exif_datetime] returns the date of the modification time in
    the format of an EXIF-derived date, not [None], and logs one warning. *)
Theorem C2_mtime_fallback (image_path : path) (w : World) (tags : gmap (list N) (list N)) t dt :
  read_exif io image_path w = Ok tags ->
  (forall field v, field ∈ datetime_fields -> tags !! field = Some v ->
                   is_ok (strptime_exif rt v) = false) ->
  getmtime io image_path w = Ok t ->
  fromtimestamp io t = Ok dt ->
  extract_exif_datetime rt io image_path w
  = (Some (strftime_ymd rt dt), [LogNoExifTime image_path])
  /\ level_of (LogNoExifTime image_path) = WARNING.
Proof.
  intros Hread Hnone Ht Hdt. split; [|reflexivity].
  unfold extract_exif_datetime, extract_exif_datetime_try.
  rewrite Hread, (scan_none _ _ Hnone), Ht. cbn. by rewrite Hdt.
Qed.

(** C8.  No exception leaves [extract_exif_datetime]: an exception of
    opening or reading the file, of reading the modification time or of
    converting it is caught, an error is logged and the result is [None];
    the [ValueError] of a tag that does not parse is caught inside the loop;
    and the result is [None] only when the body of the [try] raised. *)
Theorem C8_extract_catches (image_path : path) (w : World) :
  (forall e, read_exif io image_path w = Raise e ->
     extract_exif_datetime rt io image_path w = (None, [LogExtractFailed image_path e]))
  /\ (forall tags, read_exif io image_path w = Ok tags ->
     exists r, scan_datetime_fields rt tags datetime_fields = Ok r)
  /\ (forall tags e, read_exif io image_path w = Ok tags ->
     scan_datetime_fields rt tags datetime_fields = Ok None ->
     getmtime io image_path w = Raise e ->
     extract_exif_datetime rt io image_path w
     = (None, [LogNoExifTime image_path; LogExtractFailed image_path e]))
  /\ (forall tags t e, read_exif io image_path w = Ok tags ->
     scan_datetime_fields rt tags datetime_fields = Ok None ->
     getmtime io image_path w = Ok t -> fromtimestamp io t = Raise e ->
     extract_exif_datetime rt io image_path w
     = (None, [LogNoExifTime image_path; LogExtractFailed image_path e]))
  /\ (forall lg, extract_exif_datetime rt io image_path w = (None, lg) ->
     exists e lg', extract_exif_datetime_try rt io image_path w = (lg', Raise e)
                   /\ lg = lg' ++ [LogExtractFailed image_path e]
                   /\ level_of (LogExtractFailed image_path e) = ERROR)
  /\ (forall lg e, extract_exif_datetime_try rt io image_path w = (lg, Raise e) ->
     extract_exif_datetime rt io image_path w = (None, lg ++ [LogExtractFailed image_path e])).
Proof.
  unfold extract_exif_datetime, extract_exif_datetime_try.
  split; [|split; [|split; [|split; [|split]]]].
  - by intros e ->.
  - intros tags _. destruct (scan_datetime_fields rt tags datetime_fields) as [r|e] eqn:E; [eauto|].
    by destruct (scan_never_raises _ _ _ E).
  - by intros tags e -> -> ->.
  - intros tags t e -> -> -> He. cbn. by rewrite He.
  - intros lg H.
    destruct (match read_exif io image_path w with Ok _ => _ | Raise _ => _ end) as [lg' [s|e]];
      simplify_eq. eauto.
  - by intros lg e ->.
Qed.

End MetadataReader.

(** C2 as stated fails: a file that cannot be opened gets [None] and an
    error record, although its modification time can be read. *)
Lemma C2_counterexample :
  let image_path := {| parent := str "in"; name := str "locked.jpg" |} in
  read_exif Sample.sample_io image_path [] = Raise OSError
  /\ is_ok (getmtime Sample.sample_io image_path []) = true
  /\ extract_exif_datetime Sample.linux_runtime Sample.sample_io image_path []
     = (None, [LogExtractFailed image_path OSError]).
Proof. repeat split; vm_compute; reflexivity. Qed.

(** ** [process_directory]: the tally *)

Section BatchProcessor.
Context {World : Type}.
Variable rt : runtime.
Variable io : os_interface World.
Variables (output_dir : list N) (font_size : Z) (color position : list N) (opacity : float).

Local Abbreviation step := (process_file rt io output_dir font_size color position opacity).
Local Abbreviation loop := (process_files rt io output_dir font_size color position opacity).

(** One iteration adds one to exactly one of the two counters. *)
Lemma process_file_counts (st : tally) (image_file : path) :
  (success_count (step st image_file) = success_count st + 1
   /\ fail_count (step st image_file) = fail_count st)
  \/ (success_count (step st image_file) = success_count st
      /\ fail_count (step st image_file) = fail_count st + 1).
Proof.
  unfold process_file.
  destruct (extract_exif_datetime rt io image_file (world st)) as [[[|c text]|] lg1];
    cbn; auto.
  destruct (add_watermark _ _ _ _ _ _ _ _ _ _) as [[[|] w'] lg2]; cbn; auto.
Qed.

(** A file without a date is one failure, and nothing else changes but
    the log: [add_watermark] is not called. *)
Lemma process_file_absent (st : tally) (image_file : path) lg :
  extract_exif_datetime rt io image_file (world st) = (None, lg) ->
  step st image_file
  = {| success_count := success_count st;
       fail_count := fail_count st + 1;
       world := world st;
       log := (log st ++ [LogProcessing (name image_file)]) ++ lg
              ++ [LogSkipped (name image_file)] |}.
Proof. intros H. unfold process_file. by rewrite H. Qed.

Lemma process_files_app (files1 files2 : list path) (st : tally) :
  loop (files1 ++ files2) st = loop files2 (loop files1 st).
Proof. apply fold_left_app. Qed.

Lemma process_files_sum (files : list path) (st : tally) :
  success_count (loop files st) + fail_count (loop files st)
  = success_count st + fail_count st + Z.of_nat (length files).
Proof.
  revert st. induction files as [|f files IH]; intros st; cbn [fold_left length process_files].
  - lia.
  - change (fold_left step files (step st f)) with (loop files (step st f)).
    rewrite IH. destruct (process_file_counts st f) as [[-> ->]|[-> ->]]; lia.
Qed.

Lemma process_files_mono (files : list path) (st : tally) :
  success_count st <= success_count (loop files st)
  /\ fail_count st <= fail_count (loop files st).
Proof.
  revert st. induction files as [|f files IH]; intros st; cbn [fold_left process_files].
  - lia.
  - change (fold_left step files (step st f)) with (loop files (step st f)).
    specialize (IH (step st f)).
    destruct (process_file_counts st f) as [[E1 E2]|[E1 E2]]; lia.
Qed.

(** C10.  Whenever [process_directory] returns a pair, the two counts add
    up to the number of discovered files; it returns a pair as soon as the
    output directory could be made, so no file is left untallied.  Each
    file adds one to exactly one counter, and both counters start at zero
    and never decrease. *)
Theorem C10_tally_total (formats : list (list N)) (input_dir : list N) (w : World) :
  let run := process_directory rt io formats input_dir output_dir font_size color
               position opacity w in
  let discovered := image_files rt io formats input_dir (mkdir io output_dir w).1 in
  (is_ok (mkdir io output_dir w).2 = true -> is_ok run.1.1 = true)
  /\ (forall s f, run.1.1 = Ok (s, f) ->
      s + f = Z.of_nat (length discovered) /\ 0 <= s /\ 0 <= f)
  /\ (is_ok (mkdir io output_dir w).2 = true -> discovered = [] -> run.1.1 = Ok (0, 0))
  /\ (forall (st : tally) (image_file : path),
      (success_count (step st image_file) = success_count st + 1
       /\ fail_count (step st image_file) = fail_count st)
      \/ (success_count (step st image_file) = success_count st
          /\ fail_count (step st image_file) = fail_count st + 1))
  /\ (forall (files : list path) (st : tally),
      success_count st <= success_count (loop files st)
      /\ fail_count st <= fail_count (loop files st)).
Proof.
  cbn zeta. unfold process_directory.
  destruct (mkdir io output_dir w) as [w1 [u|e]]; cbn [fst snd].
  - split; [|split; [|split; [|split]]].
    + intros _. by destruct (image_files rt io formats input_dir w1).
    + intros s f H.
      pose proof (process_files_sum (image_files rt io formats input_dir w1)
                    {| success_count := 0; fail_count := 0; world := w1;
                       log := [LogFound (length (image_files rt io formats input_dir w1))] |})
        as Hs.
      pose proof (process_files_mono (image_files rt io formats input_dir w1)
                    {| success_count := 0; fail_count := 0; world := w1;
                       log := [LogFound (length (image_files rt io formats input_dir w1))] |})
        as Hm.
      cbn [success_count fail_count] in Hs, Hm.
      destruct (image_files rt io formats input_dir w1) as [|p files].
      * cbn in H. injection H as <- <-. cbn. lia.
      * unfold returned in H. cbn [fst] in H.
        match type of H with
        | Ok (?a, ?b) = _ => assert (a = s) by congruence; assert (b = f) by congruence
        end.
        lia.
    + by intros _ ->.
    + apply process_file_counts.
    + apply process_files_mono.
  - split; [|split; [|split; [|split]]].
    + discriminate.
    + discriminate.
    + discriminate.
    + apply process_file_counts.
    + apply process_files_mono.
Qed.

(** C9.  A discovered file for which [extract_exif_datetime] returns [None]
    is counted as exactly one failure; [add_watermark] is not called for it,
    so the world is left as it was and no output file is written; and the
    loop goes on with the files that follow. *)
Theorem C9_absent_counts_once (formats : list (list N)) (input_dir : list N) (w w1 : World) u
    (pre post : list path) (image_file : path) lg :
  let st0 := {| success_count := 0; fail_count := 0; world := w1;
                log := [LogFound (length (pre ++ image_file :: post))] |} in
  let st1 := loop pre st0 in
  let st2 := {| success_count := success_count st1;
                fail_count := fail_count st1 + 1;
                world := world st1;
                log := (log st1 ++ [LogProcessing (name image_file)]) ++ lg
                       ++ [LogSkipped (name image_file)] |} in
  mkdir io output_dir w = (w1, Ok u) ->
  image_files rt io formats input_dir w1 = pre ++ image_file :: post ->
  extract_exif_datetime rt io image_file (world st1) = (None, lg) ->
  loop (pre ++ [image_file]) st0 = st2
  /\ process_directory rt io formats input_dir output_dir font_size color position opacity w
     = returned (loop post st2).
Proof.
  intros st0 st1 st2 Hmk Hfiles Habsent.
  assert (Hstep : loop (pre ++ [image_file]) st0 = st2).
  { rewrite process_files_app.
    change (loop [image_file] (loop pre st0)) with (step st1 image_file).
    exact (process_file_absent _ _ _ Habsent). }
  split; [exact Hstep|].
  unfold process_directory. rewrite Hmk, Hfiles.
  transitivity (returned (loop (pre ++ image_file :: post) st0)); [by destruct pre|].
  replace (pre ++ image_file :: post) with ((pre ++ [image_file]) ++ post)
    by (by rewrite <- app_assoc).
  by rewrite process_files_app, Hstep.
Qed.

End BatchProcessor.

(** ** [process_directory]: the files it finds *)

Lemma startswith_prefix s p : startswith s p = true <-> p `prefix_of` s.
Proof.
  revert s. induction p as [|a p IH]; intros s; cbn.
  - split; [intros _; apply prefix_nil|done].
  - destruct s as [|b s]; [split; [done|by intros ?%prefix_nil_not]|].
    rewrite andb_true_iff, N.eqb_eq, IH. split.
    + intros [-> H]. by apply prefix_cons.
    + intros H. split; [by apply prefix_cons_inv_1 in H|by apply prefix_cons_inv_2 in H].
Qed.

Lemma endswith_suffix s p : endswith s p = true <-> p `suffix_of` s.
Proof.
  unfold endswith. rewrite startswith_prefix, suffix_prefix_reverse.
  unfold reverse. by rewrite <- !rev_alt.
Qed.

(** The twelve patterns the loop builds exclude one another: no pattern is
    a suffix of a pattern of another extension, nor of the other pattern of
    its own extension.  Checked by computation. *)
Lemma patterns_exclusive :
  Forall (fun e1 : list N =>
    ~ e1 `suffix_of` upper_ascii e1 /\ ~ upper_ascii e1 `suffix_of` e1
    /\ Forall (fun e2 : list N =>
         Forall (fun l1 : list N => Forall (fun l2 : list N =>
           l1 `suffix_of` l2 -> e1 = e2) [e2; upper_ascii e2]) [e1; upper_ascii e1])
       (elements supported_formats))
    (elements supported_formats).
Proof. apply (bool_decide_unpack _). vm_compute. reflexivity. Qed.

Section Discovery.
Context {World : Type}.
Variable rt : runtime.
Variable io : os_interface World.
Hypothesis posix : posix_flavour rt = true.

Lemma star_match_posix lit nm : star_match rt lit nm = endswith nm lit.
Proof.
  unfold star_match, endswith. generalize (rev nm) as n.
  induction (rev lit) as [|p l IH]; intros [|c n]; cbn; try reflexivity.
  unfold pattern_char_eq at 1. by rewrite posix, IH.
Qed.

Lemma elem_of_glob_star dir entries lit (p : path) :
  p ∈ glob_star rt dir entries lit
  <-> parent p = dir /\ name p ∈ entries /\ lit `suffix_of` name p.
Proof.
  unfold glob_star. rewrite list_elem_of_fmap. setoid_rewrite list_elem_of_filter.
  setoid_rewrite star_match_posix. setoid_rewrite endswith_suffix. split.
  - intros (nm & -> & Hs & Hin). done.
  - intros (<- & Hin & Hs). exists (name p). by destruct p.
Qed.

Lemma NoDup_glob_star dir entries lit :
  NoDup entries -> NoDup (glob_star rt dir entries lit).
Proof.
  intros H. unfold glob_star. apply NoDup_fmap_2_strong; [|by apply NoDup_filter].
  by intros x y _ _ [= ->].
Qed.

Lemma supported_cases (e1 e2 : list N) (P : Prop) :
  e1 ∈ supported_formats -> e2 ∈ supported_formats ->
  (~ e1 `suffix_of` upper_ascii e1 -> ~ upper_ascii e1 `suffix_of` e1 ->
   (forall l1 l2, l1 ∈ [e1; upper_ascii e1] -> l2 ∈ [e2; upper_ascii e2] ->
                  l1 `suffix_of` l2 -> e1 = e2) -> P) -> P.
Proof.
  intros H1 H2 HP. pose proof patterns_exclusive as H.
  rewrite Forall_forall in H. apply elem_of_elements in H1, H2.
  destruct (H e1 H1) as (A & B & H'). rewrite Forall_forall in H'.
  specialize (H' e2 H2). apply HP; try done.
  intros l1 l2 Hl1 Hl2. rewrite Forall_forall in H'. specialize (H' l1 Hl1).
  rewrite Forall_forall in H'. exact (H' l2 Hl2).
Qed.


End Discovery.

(** Both patterns of an extension are the extension up to case. *)
Lemma patterns_lower :
  Forall (fun e : list N => map ascii_lower e = e /\ map ascii_lower (upper_ascii e) = e)
    (elements supported_formats).
Proof. apply (bool_decide_unpack _). vm_compute. reflexivity. Qed.

Lemma suffix_map (f : N -> N) (l1 l2 : list N) :
  l1 `suffix_of` l2 -> map f l1 `suffix_of` map f l2.
Proof. intros [k ->]. exists (map f k). apply map_app. Qed.

Lemma suffix_same_length (l1 l2 : list N) :
  l1 `suffix_of` l2 -> length l1 = length l2 -> l1 = l2.
Proof.
  intros [k ->] H. rewrite length_app in H.
  destruct k; [reflexivity|cbn in H; lia].
Qed.

(** C4 (a defect of the code).  The discovery is not case-insensitive.  The
    loop globs two spellings of every extension, the one of
    [supported_formats] and its upper case, and nothing folds the case of
    the names: with the patterns of a POSIX path, a name whose extension
    belongs to the set up to case but is spelled in mixed case (neither all
    lower nor all upper, as in [b.Jpg]) is never discovered, whatever the
    directory holds and in whatever order the set is iterated. *)
Theorem C4_mixed_case_missed {World : Type} (rt : runtime) (io : os_interface World)
    (formats : list (list N)) (input_dir : list N) (w : World) (base ext spelled : list N) :
  posix_flavour rt = true ->
  formats ≡ₚ elements supported_formats ->
  ext ∈ supported_formats ->
  map ascii_lower spelled = ext ->
  spelled <> ext -> spelled <> upper_ascii ext ->
  endswith (map ascii_lower (base ++ spelled)) ext = true
  /\ {| parent := input_dir; name := base ++ spelled |}
     ∉ image_files rt io formats input_dir w.
Proof.
  intros posix Hperm Hext Hlow Hne1 Hne2. split.
  { rewrite map_app, Hlow. apply endswith_app. }
  unfold image_files. intros Hin.
  apply list_elem_of_bind in Hin as (e0 & Hin & He0).
  rewrite Hperm, elem_of_elements in He0.
  apply elem_of_app in Hin. rewrite !(elem_of_glob_star rt posix) in Hin. cbn [name] in Hin.
  assert (exists pat, (pat = e0 \/ pat = upper_ascii e0) /\ pat `suffix_of` base ++ spelled)
    as (pat & Hpat & S2).
  { destruct Hin as [(_&_&?)|(_&_&?)]; [exists e0|exists (upper_ascii e0)]; auto. }
  assert (Hpl : map ascii_lower pat = e0).
  { pose proof patterns_lower as HP. rewrite Forall_forall in HP.
    destruct (HP e0 ltac:(by apply elem_of_elements)) as [A B].
    by destruct Hpat as [->| ->]. }
  assert (S1 : spelled `suffix_of` base ++ spelled) by (by exists base).
  assert (E : ext = e0).
  { apply (supported_cases ext e0); auto. intros _ _ Hx.
    apply (supported_cases e0 ext); auto. intros _ _ Hx'.
    destruct (suffix_weak_total _ _ _ S1 S2) as [S|S].
    - apply (suffix_map ascii_lower) in S. rewrite Hlow in S. rewrite Hpl in S.
      apply (Hx ext e0); [by left|by left|done].
    - apply (suffix_map ascii_lower) in S. rewrite Hlow in S. rewrite Hpl in S.
      symmetry. apply (Hx' e0 ext); [by left|by left|done]. }
  assert (L : length spelled = length pat).
  { rewrite <- (length_map ascii_lower spelled), <- (length_map ascii_lower pat).
    rewrite Hlow, Hpl. by rewrite E. }
  assert (spelled = pat).
  { destruct (suffix_weak_total _ _ _ S1 S2) as [S|S].
    - by apply suffix_same_length.
    - symmetry. by apply suffix_same_length. }
  subst pat. rewrite <- E in Hpat. by destruct Hpat.
Qed.

(** C4 fails on the code: the extension of [b.Jpg] is [.jpg] up to case, and
    with POSIX paths the file is not found: neither [*.jpg] nor [*.JPG]
    matches it. *)
Lemma C4_counterexample :
  let file (nm : string) := {| parent := str "in"; name := str nm |} in
  str "b.Jpg" ∈ scandir Sample.sample_io (str "in") []
  /\ str ".jpg" ∈ supported_formats
  /\ endswith (map ascii_lower (str "b.Jpg")) (str ".jpg") = true
  /\ image_files Sample.linux_runtime Sample.sample_io Sample.formats (str "in") []
     = [file "a.jpg"%string; file "locked.jpg"%string; file "c.PNG"%string].
Proof.
  cbn zeta. split_and!.
  - apply (bool_decide_unpack _). vm_compute. reflexivity.
  - apply (bool_decide_unpack _). vm_compute. reflexivity.
  - vm_compute. reflexivity.
  - vm_compute. reflexivity.
Qed.

(** With Windows paths both patterns of an extension match the same files,
    and every image is found twice. *)
Example windows_finds_twice :
  let file (nm : string) := {| parent := str "in"; name := str nm |} in
  image_files Sample.windows_runtime Sample.sample_io Sample.formats (str "in") []
  = [file "a.jpg"%string; file "b.Jpg"%string; file "locked.jpg"%string;
     file "a.jpg"%string; file "b.Jpg"%string; file "locked.jpg"%string;
     file "c.PNG"%string; file "c.PNG"%string].
Proof. vm_compute. reflexivity. Qed.

(** ** [add_watermark]: the alpha of the fill colour *)

Section Binary64.

Lemma digits2_pos_upper (p : positive) : Z.pos p < 2 ^ Z.pos (digits2_pos p).
Proof.
  induction p as [p IH|p IH|]; cbn [digits2_pos]; [| |reflexivity];
    rewrite Pos2Z.inj_succ, Z.pow_succ_r by lia; lia.
Qed.

Lemma pow2_gt_1 (k : Z) : 1 < 2 ^ k -> 0 < k.
Proof.
  intros H. destruct (Z.lt_trichotomy k 0) as [Hk|[->|Hk]]; [|by cbv in H|done].
  rewrite Z.pow_neg_r in H by done. lia.
Qed.

Lemma digits2_pos_bound (p : positive) (k : Z) :
  Z.pos p < 2 ^ k -> Z.pos (digits2_pos p) <= k.
Proof.
  revert k. induction p as [p IH|p IH|]; intros k H; cbn [digits2_pos].
  - assert (0 < k) by (apply pow2_gt_1; lia).
    replace k with (Z.succ (k - 1)) in H by lia. rewrite Z.pow_succ_r in H by lia.
    specialize (IH (k - 1)). rewrite Pos2Z.inj_succ. lia.
  - assert (0 < k) by (apply pow2_gt_1; lia).
    replace k with (Z.succ (k - 1)) in H by lia. rewrite Z.pow_succ_r in H by lia.
    specialize (IH (k - 1)). rewrite Pos2Z.inj_succ. lia.
  - apply pow2_gt_1 in H. lia.
Qed.

Lemma Zdigits2_bound (z k : Z) : 0 <= z < 2 ^ k -> 0 <= k -> Zdigits2 z <= k.
Proof.
  intros [H0 H1] Hk. destruct z as [|p|p]; cbn [Zdigits2]; [lia| |lia].
  by apply digits2_pos_bound.
Qed.

Lemma shr_1_bounds mrs : 0 <= shr_m mrs -> 0 <= shr_m (shr_1 mrs) <= shr_m mrs.
Proof. destruct mrs as [[|[p|p|]|p] r s]; cbn; lia. Qed.

Lemma iter_shr_1_bounds (p : positive) mrs :
  0 <= shr_m mrs -> 0 <= shr_m (SpecFloat.iter_pos shr_1 p mrs) <= shr_m mrs.
Proof.
  revert mrs. induction p as [p IH|p IH|]; intros mrs H; cbn [SpecFloat.iter_pos].
  - pose proof (shr_1_bounds mrs H) as H1.
    pose proof (IH (shr_1 mrs) (proj1 H1)) as H2.
    pose proof (IH _ (proj1 H2)) as H3. lia.
  - pose proof (IH mrs H) as H2.
    pose proof (IH _ (proj1 H2)) as H3. lia.
  - by apply shr_1_bounds.
Qed.

(** The shift of [shr_fexp] keeps the mantissa between 0 and its old value,
    and the new exponent is the larger of the old one and the canonical
    one. *)
Lemma shr_fexp_bounds (m e : Z) (l : location) mrs e' :
  0 <= m -> shr_fexp prec emax m e l = (mrs, e') ->
  0 <= shr_m mrs <= m /\ e' = Z.max e (fexp prec emax (Zdigits2 m + e)).
Proof.
  intros Hm. unfold shr_fexp, shr.
  assert (Hrec : shr_m (shr_record_of_loc m l) = m) by (by destruct l as [|[]]).
  destruct (fexp prec emax (Zdigits2 m + e) - e) as [|p|p] eqn:E; intros [= <- <-].
  - rewrite Hrec. lia.
  - pose proof (iter_shr_1_bounds p (shr_record_of_loc m l)) as H.
    rewrite Hrec in H. lia.
  - rewrite Hrec. lia.
Qed.

Lemma round_nearest_even_bounds (m : Z) (l : location) :
  0 <= m -> 0 <= round_nearest_even m l <= m + 1.
Proof.
  intros H. destruct l as [|[]]; cbn [round_nearest_even]; try lia.
  destruct (Z.even m); lia.
Qed.

Lemma shr_1_scale mrs : 0 <= shr_m mrs -> 2 * shr_m (shr_1 mrs) <= shr_m mrs.
Proof. destruct mrs as [[|[p|p|]|p] r s]; cbn; lia. Qed.

Lemma iter_shr_1_scale (p : positive) mrs :
  0 <= shr_m mrs -> shr_m (SpecFloat.iter_pos shr_1 p mrs) * 2 ^ Z.pos p <= shr_m mrs.
Proof.
  revert mrs. induction p as [p IH|p IH|]; intros mrs H; cbn [SpecFloat.iter_pos].
  - pose proof (shr_1_bounds mrs H) as [H1 _].
    pose proof (shr_1_scale mrs H) as S1.
    pose proof (iter_shr_1_bounds p (shr_1 mrs) H1) as [H2 _].
    pose proof (IH (shr_1 mrs) H1) as S2.
    pose proof (IH _ H2) as S3.
    pose proof (iter_shr_1_bounds p _ H2) as [H3 _].
    assert (0 < 2 ^ Z.pos p) by (apply Z.pow_pos_nonneg; lia).
    replace (Z.pos p~1) with (Z.pos p + Z.pos p + 1) by lia.
    rewrite !Z.pow_add_r by lia. change (2 ^ 1) with 2. nia.
  - pose proof (iter_shr_1_bounds p mrs H) as [H2 _].
    pose proof (IH mrs H) as S2.
    pose proof (IH _ H2) as S3.
    pose proof (iter_shr_1_bounds p _ H2) as [H3 _].
    assert (0 < 2 ^ Z.pos p) by (apply Z.pow_pos_nonneg; lia).
    replace (Z.pos p~0) with (Z.pos p + Z.pos p) by lia.
    rewrite !Z.pow_add_r by lia. nia.
  - pose proof (shr_1_scale mrs H). change (2 ^ 1) with 2. lia.
Qed.

Lemma shr_fexp_scale (m e : Z) (l : location) mrs e' :
  0 <= m -> shr_fexp prec emax m e l = (mrs, e') ->
  e <= e' /\ shr_m mrs * 2 ^ (e' - e) <= m.
Proof.
  intros Hm. unfold shr_fexp, shr.
  assert (Hrec : shr_m (shr_record_of_loc m l) = m) by (by destruct l as [|[]]).
  destruct (fexp prec emax (Zdigits2 m + e) - e) as [|p|p] eqn:E; intros [= <- <-].
  - rewrite Hrec, Z.sub_diag. change (2 ^ 0) with 1. lia.
  - pose proof (iter_shr_1_scale p (shr_record_of_loc m l)) as H.
    rewrite Hrec in H. replace (e + Z.pos p - e) with (Z.pos p) by lia. lia.
  - rewrite Hrec, Z.sub_diag. change (2 ^ 0) with 1. lia.
Qed.

(** The mantissa of a binary64 number has at most 53 bits. *)
Lemma bounded_mantissa (m : positive) (e : Z) :
  bounded prec emax m e = true -> Z.pos m < 2 ^ 53.
Proof.
  unfold bounded, canonical_mantissa. intros [Hc _]%andb_true_iff.
  apply Z.eqb_eq in Hc.
  assert (Z.pos (digits2_pos m) <= 53)
    by (unfold fexp, FloatOps.prec, SpecFloat.emin in Hc; lia).
  eapply Z.lt_le_trans; [apply digits2_pos_upper|].
  apply Z.pow_le_mono_r; lia.
Qed.

(** The product of 255 and a float of [0, 1] is a zero or a finite
    non-negative float below 256. *)
Lemma mul_255_bounded (m : positive) (e : Z) :
  bounded prec emax m e = true -> e <= -52 -> Z.pos m <= 2 ^ (- e) ->
  match SF64mul (S754_finite false 8972014882652160 (-45)) (S754_finite false m e) with
  | S754_zero false => True
  | S754_finite false m2 e2 =>
      e - 45 <= e2 /\ Z.pos m2 * 2 ^ (e2 - (e - 45)) < 256 * 2 ^ (45 - e)
  | _ => False
  end.
Proof.
  intros Hb He Hone. pose proof (bounded_mantissa m e Hb) as Hm.
  unfold SF64mul, SFmul. cbn [xorb]. unfold binary_round_aux.
  destruct (shr_fexp _ _ _ _ _) as [mrs' e'] eqn:E1.
  destruct (shr_fexp _ _ (round_nearest_even _ _) _ _) as [mrs'' e''] eqn:E2.
  pose proof (shr_fexp_scale _ _ _ _ _ (Pos2Z.is_nonneg _) E1) as [G1 G2].
  apply shr_fexp_bounds in E1 as [[A1 A2] E1]; [|lia].
  pose proof (round_nearest_even_bounds (shr_m mrs') (loc_of_shr_record mrs') A1) as [B1 B2].
  pose proof (shr_fexp_scale _ _ _ _ _ B1 E2) as [G3 G4].
  apply shr_fexp_bounds in E2 as [[C1 C2] E2]; [|lia].
  set (mx := Z.pos (8972014882652160 * m)) in *.
  assert (Hmx : 0 <= mx < 2 ^ 106).
  { subst mx. rewrite Pos2Z.inj_mul. change (2 ^ 106) with (2 ^ 53 * 2 ^ 53). nia. }
  pose proof (Zdigits2_bound mx 106 Hmx ltac:(lia)) as D1.
  set (m1 := round_nearest_even (shr_m mrs') (loc_of_shr_record mrs')) in *.
  assert (Hm1 : 0 <= m1 < 2 ^ 107).
  { change (2 ^ 107) with (2 * 2 ^ 106). lia. }
  pose proof (Zdigits2_bound m1 107 Hm1 ltac:(lia)) as D2.
  assert (He' : e' <= -44).
  { rewrite E1. unfold fexp, FloatOps.prec, FloatOps.emax, SpecFloat.emin. lia. }
  assert (He'' : e'' <= emax - prec).
  { rewrite E2. unfold fexp, FloatOps.prec, FloatOps.emax, SpecFloat.emin. lia. }
  destruct (shr_m mrs'') as [|q|q] eqn:Eq; [done| |lia].
  apply Z.leb_le in He''. rewrite He''. split; [lia|].
  replace (e'' - (e - 45)) with ((e'' - e') + (e' - (-45 + e))) by lia.
  rewrite Z.pow_add_r by lia.
  assert (P1 : 0 < 2 ^ (e'' - e')) by (apply Z.pow_pos_nonneg; lia).
  assert (P2 : 0 < 2 ^ (e' - (-45 + e))) by (apply Z.pow_pos_nonneg; lia).
  assert (P3 : 2 ^ (e' - (-45 + e)) < 2 ^ (45 - e)) by (apply Z.pow_lt_mono_r; lia).
  assert (P4 : mx <= 255 * 2 ^ (45 - e)).
  { subst mx. rewrite Pos2Z.inj_mul.
    replace (45 - e) with (45 + - e) by lia. rewrite Z.pow_add_r by lia.
    change (Z.pos 8972014882652160) with (255 * 2 ^ 45).
    assert (0 < 2 ^ 45) by done. nia. }
  nia.
Qed.

Lemma floor_below_256 (m2 : positive) (e2 e0 : Z) :
  e0 <= e2 -> e0 <= 0 -> Z.pos m2 * 2 ^ (e2 - e0) < 256 * 2 ^ (- e0) ->
  match e2 with
  | Zneg p => Z.pos m2 / 2 ^ Z.pos p
  | _ => Z.pos m2 * 2 ^ e2
  end <= 255.
Proof.
  intros H1 H2 H.
  assert (P : 0 < 2 ^ (e2 - e0)) by (apply Z.pow_pos_nonneg; lia).
  destruct e2 as [|p|p].
  - rewrite Z.sub_0_l in H. change (2 ^ 0) with 1. nia.
  - replace (Z.pos p - e0) with (Z.pos p + - e0) in * by lia.
    rewrite Z.pow_add_r in * by lia.
    assert (0 < 2 ^ (- e0)) by (apply Z.pow_pos_nonneg; lia).
    assert (0 < 2 ^ Z.pos p) by (apply Z.pow_pos_nonneg; lia). nia.
  - assert (Q : 0 < 2 ^ Z.pos p) by (apply Z.pow_pos_nonneg; lia).
    replace (- e0) with ((Z.neg p - e0) + Z.pos p) in H by lia.
    rewrite Z.pow_add_r in H by lia.
    assert (Z.pos m2 / 2 ^ Z.pos p < 256); [|lia].
    apply Z.div_lt_upper_bound; [done|]. nia.
Qed.

(** [int] of a finite non-negative float is its floor. *)
Lemma int_of_float_floor (x : float) (m : positive) (e : Z) :
  Prim2SF x = S754_finite false m e ->
  exists a v, float_value x = Some v /\ int_of_float x = Ok a
              /\ (inject_Z a <= v)%Q /\ (v < inject_Z (a + 1))%Q /\ 0 <= a.
Proof.
  intros H. unfold float_value, int_of_float. rewrite H.
  destruct e as [|p|p]; eexists _, _; (split; [reflexivity|]); (split; [reflexivity|]).
  - rewrite Z.pow_0_r, Z.mul_1_r. unfold Qle, Qlt. cbn. lia.
  - unfold Qle, Qlt. cbn [Qnum Qden inject_Z].
    pose proof (Z.pow_pos_nonneg 2 (Z.pos p)). lia.
  - unfold Qle, Qlt. cbn [Qnum Qden inject_Z]. rewrite Pos2Z.inj_pow.
    assert (0 < 2 ^ Z.pos p) by (apply Z.pow_pos_nonneg; lia).
    pose proof (Z.mul_div_le (Z.pos m) (2 ^ Z.pos p)).
    pose proof (Z.mul_succ_div_gt (Z.pos m) (2 ^ Z.pos p)).
    pose proof (Z.div_pos (Z.pos m) (2 ^ Z.pos p)). nia.
Qed.

End Binary64.

(** For an opacity in [0, 1] the product 255 * opacity is a finite float
    that is not negative, and [watermark_alpha] is its floor, a byte. *)
Lemma alpha_floor (opacity : float) :
  (0 <=? opacity)%float = true -> (opacity <=? 1)%float = true ->
  exists a v,
    float_value (255 * opacity)%float = Some v
    /\ watermark_alpha opacity = Ok a
    /\ (inject_Z a <= v)%Q /\ (v < inject_Z (a + 1))%Q
    /\ 0 <= a <= 255.
Proof.
  intros H0 H1. rewrite leb_spec in H0, H1.
  pose proof (Prim2SF_valid opacity) as Hv.
  assert (Hmul : match Prim2SF (255 * opacity)%float with
                 | S754_zero _ => True
                 | S754_finite false m2 e2 =>
                     exists e0, e0 <= e2 /\ e0 <= 0
                                /\ Z.pos m2 * 2 ^ (e2 - e0) < 256 * 2 ^ (- e0)
                 | _ => False
                 end).
  { rewrite mul_spec.
    change (Prim2SF 255%float) with (S754_finite false 8972014882652160 (-45)).
    change (Prim2SF 1%float) with (S754_finite false 4503599627370496 (-52)) in H1.
    change (Prim2SF 0%float) with (S754_zero false) in H0.
    destruct (Prim2SF opacity) as [[|]|[|]| |[|] m e]; try done.
    cbn in Hv.
    assert (He : e <= -52 /\ Z.pos m <= 2 ^ (- e)).
    { unfold SFleb, SFcompare in H1.
      destruct (Z.compare_spec e (-52)) as [->|Hlt|Hgt]; [| |done].
      - split; [lia|]. change (2 ^ (- -52)) with (Z.pos 4503599627370496).
        rewrite Pos.compare_cont_spec in H1.
        destruct (Pos.compare_spec m 4503599627370496) as [Heq|Hlt|Hgt].
        { rewrite Heq. reflexivity. }
        { apply Pos2Z.pos_le_pos, Pos.lt_le_incl, Hlt. }
        { cbn [Pos.switch_Eq] in H1. discriminate H1. }
      - split; [lia|]. pose proof (bounded_mantissa m e Hv).
        apply Z.lt_le_incl. eapply Z.lt_le_trans; [eassumption|].
        apply Z.pow_le_mono_r; lia. }
    pose proof (mul_255_bounded m e Hv (proj1 He) (proj2 He)) as H.
    destruct (SF64mul _ _) as [[|]|[|]| |[|] m2 e2]; try done.
    destruct H as [G1 G2]. exists (e - 45). split_and!; [lia..|].
    by replace (- (e - 45)) with (45 - e) by lia. }
  unfold watermark_alpha.
  destruct (Prim2SF (255 * opacity)%float) as [s| | |s m e] eqn:E; try done.
  - exists 0, 0%Q. unfold float_value, int_of_float. rewrite E. done.
  - destruct s; [done|]. destruct Hmul as (e0 & G1 & G2 & G3).
    destruct (int_of_float_floor _ m e E) as (a & v & Hv' & Ha & Hle & Hlt & Hpos).
    exists a, v. split_and!; try done.
    unfold int_of_float in Ha. rewrite E in Ha.
    assert (a = match e with
                | Zneg p => Z.pos m / 2 ^ Z.pos p
                | _ => Z.pos m * 2 ^ e
                end) as -> by congruence.
    by apply (floor_below_256 m e e0).
Qed.

(** C3 (amended).  In [add_watermark], for every opacity in [0, 1], once the
    image is measured and the colour resolved to an RGB triple, the fill
    colour handed to the drawing is that triple with the alpha
    [int(255 * opacity)]: the float product 255 * opacity truncated towards
    zero, that is, the largest integer not above it (not the nearest
    integer), and it lies between 0 and 255. *)
Theorem C3_alpha_truncates {World : Type} (rt : runtime) (io : os_interface World)
    (image_path output_path : path) (watermark_text : list N) (font_size : Z)
    (color position : list N) (opacity : float) (w : World)
    (img_size : Z * Z) (b0 b1 b2 b3 : Z) (rgb_color : Z * Z * Z) :
  (0 <=? opacity)%float = true -> (opacity <=? 1)%float = true ->
  pil_measure io image_path watermark_text font_size w = Ok (img_size, (b0, b1, b2, b3)) ->
  parse_color rt color = Ok rgb_color ->
  exists alpha v,
    watermark_alpha opacity = Ok alpha
    /\ float_value (255 * opacity)%float = Some v
    /\ (inject_Z alpha <= v)%Q /\ (v < inject_Z (alpha + 1))%Q
    /\ 0 <= alpha <= 255
    /\ add_watermark_try rt io image_path output_path watermark_text font_size
         color position opacity w
       = pil_draw_save io image_path output_path watermark_text font_size
           (get_position_coordinates position img_size (b2 - b0, b3 - b1) default_margin)
           (rgb_color, alpha) w.
Proof.
  intros H0 H1 Hm Hc.
  destruct (alpha_floor opacity H0 H1) as (alpha & v & Hv & Ha & Hle & Hlt & Hpos).
  exists alpha, v. split_and!; try done; try lia.
  unfold add_watermark_try. by rewrite Hm, Hc, Ha.
Qed.

Lemma C3_witness :
  exists alpha v,
    watermark_alpha 0.5%float = Ok alpha
    /\ float_value (255 * 0.5)%float = Some v
    /\ (inject_Z alpha <= v)%Q /\ (v < inject_Z (alpha + 1))%Q
    /\ 0 <= alpha <= 255
    /\ add_watermark_try Sample.linux_runtime Sample.sample_io
         {| parent := str "in"; name := str "a.jpg" |}
         {| parent := str "out"; name := str "a_watermark.jpg" |}
         (str "2024") 24 (str "red") (str "center") 0.5%float []
       = pil_draw_save Sample.sample_io
           {| parent := str "in"; name := str "a.jpg" |}
           {| parent := str "out"; name := str "a_watermark.jpg" |}
           (str "2024") 24
           (get_position_coordinates (str "center") (1000, 800) (100 - 0, 40 - 0)
              default_margin)
           ((255, 0, 0), alpha) [].
Proof.
  apply (C3_alpha_truncates Sample.linux_runtime Sample.sample_io);
    vm_compute; reflexivity.
Defined.

(** C3 as stated fails: for the opacity 0.375 the product is 95.625, the
    alpha is 95 and the nearest integer is 96. *)
Lemma C3_counterexample :
  (0 <=? 0.375)%float = true /\ (0.375 <=? 1)%float = true
  /\ watermark_alpha 0.375%float = Ok 95
  /\ round_float (255 * 0.375)%float = Ok 96.
Proof. repeat split; vm_compute; reflexivity. Qed.

(** ** The theorems at sample inputs *)

Lemma C1_witness :
  parse_color Sample.linux_runtime (str "#fff") = Ok white.
Proof.
  apply (proj1 (proj2 (C1_parse_color_errors Sample.linux_runtime (str "#fff")))
           (str "fff")); [reflexivity|vm_compute; lia].
Defined.

Lemma C7_witness :
  parse_color Sample.linux_runtime (str "Magenta") = Ok (255, 0, 255).
Proof.
  apply (proj1 (C7_parse_color_order Sample.linux_runtime)). vm_compute. reflexivity.
Defined.

Lemma C2_witness :
  let image_path := {| parent := str "in"; name := str "c.PNG" |} in
  extract_exif_datetime Sample.linux_runtime Sample.sample_io image_path []
  = (Some (strftime_ymd Sample.linux_runtime Sample.epoch), [LogNoExifTime image_path])
  /\ level_of (LogNoExifTime image_path) = WARNING.
Proof.
  apply (C2_mtime_fallback Sample.linux_runtime Sample.sample_io _ [] ∅ 0%float Sample.epoch);
    try reflexivity.
  intros field v _ H. rewrite lookup_empty in H. discriminate H.
Defined.

Lemma C5_witness :
  extract_exif_datetime Sample.linux_runtime Sample.sample_io
    {| parent := str "in"; name := str "a.jpg" |} []
  = (Some (str "2024" ++ [nian] ++ str "01" ++ [yue] ++ str "15" ++ [ri]), []).
Proof.
  apply (proj2 (proj2 (C5_extract_priority Sample.linux_runtime Sample.sample_io
                         {| parent := str "in"; name := str "a.jpg" |} []
                         (Sample.tags_with "EXIF DateTime" "2024:01:15 10:30:00")
                         eq_refl)) (str "EXIF DateTime")).
  - vm_compute. do 2 right. left.
  - vm_compute. reflexivity.
  - intros f' v' _ Hne H. unfold Sample.tags_with in H.
    rewrite lookup_singleton_ne in H by congruence. discriminate H.
Defined.

Lemma C8_witness :
  let image_path := {| parent := str "in"; name := str "locked.jpg" |} in
  extract_exif_datetime Sample.linux_runtime Sample.sample_io image_path []
  = (None, [LogExtractFailed image_path OSError]).
Proof.
  apply (proj1 (C8_extract_catches Sample.linux_runtime Sample.sample_io
                  {| parent := str "in"; name := str "locked.jpg" |} [])).
  reflexivity.
Defined.

Lemma sample_formats_order : Sample.formats ≡ₚ elements supported_formats.
Proof.
  apply NoDup_Permutation.
  - apply (bool_decide_unpack _). vm_compute. reflexivity.
  - apply NoDup_elements.
  - intros e. rewrite elem_of_elements. unfold Sample.formats, supported_formats.
    rewrite !elem_of_union, !elem_of_singleton, !elem_of_cons, elem_of_nil. tauto.
Qed.


Lemma C4_witness :
  endswith (map ascii_lower (str "b" ++ str ".Jpg")) (str ".jpg") = true
  /\ {| parent := str "in"; name := str "b" ++ str ".Jpg" |}
     ∉ image_files Sample.linux_runtime Sample.sample_io Sample.formats (str "in") [].
Proof.
  apply (C4_mixed_case_missed Sample.linux_runtime Sample.sample_io Sample.formats
           (str "in") [] (str "b") (str ".jpg") (str ".Jpg") eq_refl sample_formats_order).
  - apply (bool_decide_unpack _). vm_compute. reflexivity.
  - vm_compute. reflexivity.
  - vm_compute. discriminate.
  - vm_compute. discriminate.
Defined.

Lemma C10_witness :
  2 + 1 = Z.of_nat (length (image_files Sample.linux_runtime Sample.sample_io
                              Sample.formats (str "in") [])).
Proof.
  pose proof (C10_tally_total Sample.linux_runtime Sample.sample_io (str "out") 24
                (str "white") (str "center") 0.5%float Sample.formats (str "in") []) as H.
  cbn zeta in H. destruct H as (_ & H & _).
  apply (H 2 1). vm_compute. reflexivity.
Defined.

Lemma C9_witness :
  (process_directory Sample.linux_runtime Sample.sample_io Sample.formats (str "in")
     (str "out") 24 (str "white") (str "center") 0.5%float []).1.1 = Ok (2, 1).
Proof.
  pose proof (C9_absent_counts_once Sample.linux_runtime Sample.sample_io (str "out") 24
                (str "white") (str "center") 0.5%float Sample.formats (str "in") [] [] tt
                [{| parent := str "in"; name := str "a.jpg" |}]
                [{| parent := str "in"; name := str "c.PNG" |}]
                {| parent := str "in"; name := str "locked.jpg" |}
                [LogExtractFailed {| parent := str "in"; name := str "locked.jpg" |} OSError])
    as H.
  cbn zeta in H.
  destruct H as [_ H]; [reflexivity|vm_compute; reflexivity|vm_compute; reflexivity|].
  rewrite H. vm_compute. reflexivity.
Defined.

(* ================================================================== *)
(** * Further properties of the code *)
(* ================================================================== *)

(** ** [get_position_coordinates]: the text box and the image *)

Lemma position_cases position img_width img_height text_width text_height margin :
  get_position_coordinates position (img_width, img_height) (text_width, text_height) margin
  ∈ [ (margin, margin);
      (img_width - text_width - margin, margin);
      ((img_width - text_width) / 2, margin);
      ((img_width - text_width) / 2, (img_height - text_height) / 2);
      (margin, img_height - text_height - margin);
      (img_width - text_width - margin, img_height - text_height - margin);
      ((img_width - text_width) / 2, img_height - text_height - margin) ].
Proof.
  unfold get_position_coordinates.
  destruct (position_map _ _ _ !! position) as [xy|] eqn:E; cbn [default].
  - apply elem_of_list_to_map_2 in E.
    apply (list_elem_of_fmap_2 snd) in E. exact E.
  - replace (position_map _ _ _ !!! str "bottom-right")
      with (img_width - text_width - margin, img_height - text_height - margin)
      by (vm_compute; reflexivity).
    do 5 right. left.
Qed.




(** ** [int]: bounds and the round trip with [str] *)

Section IntBounds.
Variable rt : runtime.

Lemma span_digits_split base s d r :
  span_digits base s = (d, r) ->
  s = d ++ r /\ Forall (fun c => is_digit_in base c = true \/ c = underscore) d.
Proof.
  revert d r. induction s as [|c s IH]; intros d r H; cbn in H.
  - by simplify_eq.
  - destruct (is_digit_in base c || (c =? underscore)%N) eqn:E.
    + destruct (span_digits base s) as [d' r'] eqn:E'. simplify_eq.
      destruct (IH d' r eq_refl) as [-> HF]. split; [done|].
      constructor; [|done].
      apply orb_true_iff in E as [E|E]; [by left|right; by apply N.eqb_eq].
    + by simplify_eq.
Qed.

Lemma skip_c_space_length s : (length (skip_c_space s) <= length s)%nat.
Proof. induction s as [|c s IH]; cbn; [lia|]. destruct (is_c_space c); cbn; lia. Qed.

Lemma digits_value_acc base d acc :
  (0 < base)%N -> 0 <= acc ->
  Forall (fun c => is_digit_in base c = true) d ->
  let v := fold_left (fun acc c => acc * Z.of_N base + Z.of_N (default 0%N (digit_value c))) d acc in
  0 <= v < (acc + 1) * Z.of_N base ^ Z.of_nat (length d).
Proof.
  intros Hb. revert acc. induction d as [|c d IH]; intros acc Hacc HF; cbn [fold_left length].
  - cbn zeta. rewrite Z.pow_0_r. lia.
  - apply Forall_cons in HF as [Hc HF]. cbn zeta.
    unfold is_digit_in in Hc. destruct (digit_value c) as [x|]; [|discriminate Hc].
    apply N.ltb_lt in Hc. cbn [default].
    specialize (IH (acc * Z.of_N base + Z.of_N x) ltac:(nia) HF). cbn zeta in IH.
    rewrite Nat2Z.inj_succ, Z.pow_succ_r by lia.
    assert (0 < Z.of_N base ^ Z.of_nat (length d)) by (apply Z.pow_pos_nonneg; lia).
    assert (acc * Z.of_N base + Z.of_N x + 1 <= (acc + 1) * Z.of_N base) by lia.
    destruct IH as [IH1 IH2]. split; [exact IH1|]. eapply Z.lt_le_trans; [exact IH2|].
    rewrite Z.mul_assoc. apply Z.mul_le_mono_nonneg_r; lia.
Qed.

Lemma digits_value_bound base d :
  (0 < base)%N ->
  Forall (fun c => is_digit_in base c = true \/ c = underscore) d ->
  0 <= digits_value base d < Z.of_N base ^ Z.of_nat (length d).
Proof.
  intros Hb HF. unfold digits_value.
  assert (HF' : Forall (fun c => is_digit_in base c = true) (digits_of d)).
  { unfold digits_of. apply Forall_forall. intros c [Hc Hin]%list_elem_of_filter.
    rewrite Forall_forall in HF. by destruct (HF c Hin). }
  pose proof (digits_value_acc base (digits_of d) 0 Hb ltac:(lia) HF') as H. cbn zeta in H.
  assert (length (digits_of d) <= length d)%nat by apply length_filter.
  assert (Z.of_N base ^ Z.of_nat (length (digits_of d)) <= Z.of_N base ^ Z.of_nat (length d))
    by (apply Z.pow_le_mono_r; lia).
  lia.
Qed.

Lemma int_of_ascii_bounds base s v :
  (0 < base)%N ->
  int_of_ascii rt base s = Ok v ->
  - Z.of_N base ^ Z.of_nat (length s - 1) < v < Z.of_N base ^ Z.of_nat (length s).
Proof.
  intros Hb. unfold int_of_ascii.
  pose proof (skip_c_space_length s) as L1.
  set (s1 := skip_c_space s) in *.
  set (sg := match s1 with 43%N :: r => (false, r) | 45%N :: r => (true, r) | _ => (false, s1) end).
  assert (Hsg : forall neg s2, sg = (neg, s2) ->
                 (length s2 + (if neg then 1 else 0) <= length s1)%nat).
  { subst sg. clearbody s1. intros neg s2 H. repeat case_match; simplify_eq; cbn; lia. }
  destruct sg as [neg s2]. specialize (Hsg neg s2 eq_refl).
  set (s3 := match s2 with 48%N :: x :: r => _ | _ => s2 end).
  assert (Hs3 : (length s3 <= length s2)%nat).
  { subst s3. repeat case_match; cbn; lia. }
  clearbody s3.
  destruct (span_digits base s3) as [d rest] eqn:E.
  apply span_digits_split in E as [-> HF].
  rewrite length_app in Hs3.
  pose proof (digits_value_bound base d Hb HF) as Hv.
  intros H. repeat case_match; simplify_eq.
  - assert (Z.of_N base ^ Z.of_nat (length d) <= Z.of_N base ^ Z.of_nat (length s - 1))
      by (apply Z.pow_le_mono_r; lia).
    assert (0 < Z.of_N base ^ Z.of_nat (length s)) by (apply Z.pow_pos_nonneg; lia).
    lia.
  - assert (Z.of_N base ^ Z.of_nat (length d) <= Z.of_N base ^ Z.of_nat (length s))
      by (apply Z.pow_le_mono_r; lia).
    assert (0 < Z.of_N base ^ Z.of_nat (length s - 1)) by (apply Z.pow_pos_nonneg; lia).
    lia.
Qed.

Lemma int_bounds base s v :
  (0 < base)%N -> int rt base s = Ok v ->
  - Z.of_N base ^ Z.of_nat (length s - 1) < v < Z.of_N base ^ Z.of_nat (length s).
Proof.
  intros Hb H. unfold int in H. apply int_of_ascii_bounds in H; [|done].
  by rewrite length_map in H.
Qed.

(** The three components of the hex branch. *)
Lemma hex_triple_range h r g b :
  length h = 6%nat -> hex_triple rt h = Ok (r, g, b) ->
  -15 <= r <= 255 /\ -15 <= g <= 255 /\ -15 <= b <= 255.
Proof.
  intros Hlen H. unfold hex_triple in H.
  destruct h as [|c1 [|c2 [|c3 [|c4 [|c5 [|c6 [|]]]]]]]; try discriminate Hlen.
  unfold slice in H. cbn [drop take Nat.sub] in H.
  destruct (int rt 16 [c1; c2]) as [r'|] eqn:E1; [|discriminate H].
  destruct (int rt 16 [c3; c4]) as [g'|] eqn:E2; [|discriminate H].
  destruct (int rt 16 [c5; c6]) as [b'|] eqn:E3; [|discriminate H].
  cbn in H. injection H as -> -> ->.
  apply int_bounds in E1, E2, E3; try done.
  cbn in E1, E2, E3. lia.
Qed.

End IntBounds.



Section DecimalRoundTrip.
Variable rt : runtime.

Lemma uint_digits_ascii u : Forall (fun c => is_ascii_digit c = true) (uint_digits u).
Proof. induction u; cbn [uint_digits]; constructor; done. Qed.

Lemma uint_digits_value_acc u acc :
  fold_left (fun acc c => acc * 10 + Z.of_N (default 0%N (digit_value c)))
    (uint_digits u) (Z.pos acc)
  = Z.pos (Pos.of_uint_acc u acc).
Proof.
  revert acc. induction u; intros acc; cbn [uint_digits fold_left Pos.of_uint_acc];
    [reflexivity|..]; rewrite <- IHu; f_equal; cbn; lia.
Qed.

Lemma uint_digits_value u :
  fold_left (fun acc c => acc * 10 + Z.of_N (default 0%N (digit_value c)))
    (uint_digits u) 0
  = Z.of_N (N.of_uint u).
Proof.
  unfold N.of_uint.
  induction u; cbn [uint_digits fold_left Pos.of_uint]; [reflexivity|exact IHu|..];
    cbn [Z.of_N]; rewrite <- uint_digits_value_acc; reflexivity.
Qed.

Lemma ascii_digit_cases c :
  is_ascii_digit c = true ->
  c ∈ [48; 49; 50; 51; 52; 53; 54; 55; 56; 57]%N.
Proof.
  unfold is_ascii_digit, in_range. intros H. nbool.
  assert (c = 48 \/ c = 49 \/ c = 50 \/ c = 51 \/ c = 52 \/ c = 53 \/ c = 54 \/ c = 55
          \/ c = 56 \/ c = 57)%N as Hc by lia.
  rewrite !elem_of_cons. tauto.
Qed.

Lemma span_digits_all ds :
  Forall (fun c => is_ascii_digit c = true) ds -> span_digits 10 ds = (ds, []).
Proof.
  induction 1 as [|c ds Hc _ IH]; [reflexivity|]. cbn [span_digits]. rewrite IH.
  apply ascii_digit_cases in Hc.
  repeat (apply elem_of_cons in Hc as [->|Hc]; [reflexivity|]).
  by apply elem_of_nil in Hc.
Qed.

Lemma well_grouped_digits ds :
  Forall (fun c => is_ascii_digit c = true) ds -> well_grouped false ds = true.
Proof.
  induction 1 as [|c ds Hc _ IH]; [reflexivity|]. cbn [well_grouped].
  apply ascii_digit_cases in Hc.
  repeat (apply elem_of_cons in Hc as [->|Hc]; [exact IH|]).
  by apply elem_of_nil in Hc.
Qed.

Lemma digits_of_digits ds :
  Forall (fun c => is_ascii_digit c = true) ds -> digits_of ds = ds.
Proof.
  induction 1 as [|c ds Hc _ IH]; [reflexivity|]. unfold digits_of in *.
  rewrite filter_cons, IH.
  apply ascii_digit_cases in Hc.
  repeat (apply elem_of_cons in Hc as [->|Hc]; [reflexivity|]).
  by apply elem_of_nil in Hc.
Qed.

Lemma to_ascii_decimal_digits ds :
  Forall (fun c => is_ascii_digit c = true) ds -> map (to_ascii_decimal rt) ds = ds.
Proof.
  induction 1 as [|c ds Hc _ IH]; [reflexivity|]. cbn [map]. rewrite IH. f_equal.
  unfold to_ascii_decimal. unfold is_ascii_digit, in_range in Hc. nbool.
  by destruct (N.ltb_spec c 127); [|lia].
Qed.

(** [int] of a non-empty string of at most 640 ASCII digits is the number
    they spell, and a minus sign in front negates it. *)
Lemma int_of_digits (neg : bool) ds :
  Forall (fun c => is_ascii_digit c = true) ds -> ds <> [] ->
  (length ds <= 640)%nat ->
  int rt 10 ((if neg then [45%N] else []) ++ ds)
  = Ok (if neg then - digits_value 10 ds else digits_value 10 ds).
Proof.
  intros HF Hne Hlen. unfold int.
  rewrite map_app, (to_ascii_decimal_digits ds HF).
  replace (map (to_ascii_decimal rt) (if neg then [45%N] else []))
    with (if neg then [45%N] else []) by (by destruct neg).
  destruct ds as [|c ds]; [done|].
  assert (Hs := span_digits_all _ HF).
  assert (Hd := digits_of_digits _ HF).
  apply Forall_cons in HF as [Hc HF].
  assert (Hw : well_grouped true (c :: ds) = true).
  { pose proof (well_grouped_digits ds HF) as Hw. cbn [well_grouped].
    apply ascii_digit_cases in Hc.
    repeat (apply elem_of_cons in Hc as [->|Hc]; [exact Hw|]).
    by apply elem_of_nil in Hc. }
  assert (Hlim : (max_str_digits_threshold <? N.of_nat (length (c :: ds)))%N = false).
  { apply N.ltb_ge. unfold max_str_digits_threshold. lia. }
  apply ascii_digit_cases in Hc.
  destruct neg; cbn [app];
    repeat (apply elem_of_cons in Hc as [->|Hc];
            [destruct ds as [|x r];
             cbv beta iota zeta delta
               [int_of_ascii skip_c_space is_c_space in_range N.leb N.eqb N.compare
                Pos.compare Pos.compare_cont Pos.eqb andb orb negb is_pow2_base];
             rewrite Hs; cbv beta iota; rewrite Hw, Hd, Hlim; reflexivity|]);
    by apply elem_of_nil in Hc.
Qed.

End DecimalRoundTrip.

Section StrRoundTrip.
Variable rt : runtime.

Lemma decimal_nonempty n : decimal n <> [].
Proof.
  unfold decimal. pose proof (DecimalN.Unsigned.to_of (N.to_uint (Z.to_N n))) as H.
  rewrite DecimalN.Unsigned.of_to in H.
  pose proof (DecimalFacts.unorm_nonnil (N.to_uint (Z.to_N n))) as Hn.
  rewrite <- H in Hn. by destruct (N.to_uint (Z.to_N n)).
Qed.

Lemma digits_value_decimal n : 0 <= n -> digits_value 10 (decimal n) = n.
Proof.
  intros Hn. unfold digits_value, decimal.
  rewrite (digits_of_digits _ (uint_digits_ascii _)).
  change (Z.of_N 10) with 10.
  rewrite uint_digits_value, DecimalN.Unsigned.of_to. lia.
Qed.

Lemma lstrip_id c s : is_unicode_space c = false -> lstrip (c :: s) = c :: s.
Proof. intros H. cbn. by rewrite H. Qed.

Lemma strip_id s :
  Forall (fun c => is_unicode_space c = false) s -> strip s = s.
Proof.
  intros H. unfold strip.
  assert (L : forall t, Forall (fun c => is_unicode_space c = false) t -> lstrip t = t).
  { intros [|c t] Ht; [reflexivity|]. apply Forall_cons in Ht as [Hc _]. by apply lstrip_id. }
  rewrite (L s H), L, rev_involutive; [done|].
  rewrite rev_alt. fold (reverse s). by apply Forall_reverse.
Qed.

Lemma digit_not_space c : is_ascii_digit c = true -> is_unicode_space c = false.
Proof.
  intros H%ascii_digit_cases.
  repeat (apply elem_of_cons in H as [->|H]; [reflexivity|]). by apply elem_of_nil in H.
Qed.

Lemma str_of_int_shape n :
  exists ds, str_of_int n = (if n <? 0 then [45%N] else []) ++ ds
             /\ Forall (fun c => is_ascii_digit c = true) ds /\ ds <> []
             /\ digits_value 10 ds = Z.abs n.
Proof.
  unfold str_of_int. destruct (Z.ltb_spec n 0).
  - exists (decimal (- n)). split_and!; [done|apply uint_digits_ascii|apply decimal_nonempty|].
    rewrite digits_value_decimal; lia.
  - exists (decimal n). split_and!; [done|apply uint_digits_ascii|apply decimal_nonempty|].
    rewrite digits_value_decimal; lia.
Qed.

(** [int(str(n))] is [n], also with white space around it; [str(n)] has no
    comma. *)
Lemma int_str_of_int n :
  (length (str_of_int n) <= 640)%nat ->
  int rt 10 (strip (str_of_int n)) = Ok n /\ 44%N ∉ str_of_int n.
Proof.
  intros Hlen. destruct (str_of_int_shape n) as (ds & E & HF & Hne & Hv).
  rewrite E in *.
  assert (Hsp : Forall (fun c => is_unicode_space c = false)
                  ((if n <? 0 then [45%N] else []) ++ ds)).
  { apply Forall_app. split; [by destruct (n <? 0); repeat constructor|].
    eapply Forall_impl; [exact HF|]. apply digit_not_space. }
  split.
  - rewrite (strip_id _ Hsp).
    rewrite (int_of_digits rt (n <? 0) ds HF Hne) by (rewrite length_app in Hlen; lia).
    rewrite Hv. f_equal. destruct (Z.ltb_spec n 0); lia.
  - rewrite elem_of_app. intros [H|H].
    + destruct (n <? 0); [|by apply elem_of_nil in H].
      by apply list_elem_of_singleton in H.
    + rewrite Forall_forall in HF. by specialize (HF _ H).
Qed.

End StrRoundTrip.


(** ** [strptime] on the layout of an EXIF value *)

Section Strptime.
Variable rt : runtime.

Lemma re_match_head it items s m r tl ms r' tl' :
  match_item it s = (m, r) :: tl ->
  re_match items r = (ms, r') :: tl' ->
  exists tl'', re_match (it :: items) s = (m :: ms, r') :: tl''.
Proof.
  intros H1 H2. cbn [re_match]. rewrite H1. cbn. rewrite H2. cbn. eauto.
Qed.

Lemma decimal_padded_ascii w n : Forall (fun c => is_ascii_digit c = true) (decimal_padded w n).
Proof.
  unfold decimal_padded. apply Forall_app. split.
  - apply Forall_replicate. reflexivity.
  - apply uint_digits_ascii.
Qed.

Lemma digits_value_zeros k ds :
  Forall (fun c => is_ascii_digit c = true) ds ->
  digits_value 10 (replicate k 48%N ++ ds) = digits_value 10 ds.
Proof.
  intros HF. unfold digits_value.
  rewrite (digits_of_digits ds HF).
  rewrite digits_of_digits
    by (apply Forall_app; split; [by apply Forall_replicate|done]).
  rewrite fold_left_app. f_equal.
  induction k as [|k IH]; [reflexivity|]. cbn [replicate fold_left]. exact IH.
Qed.

Lemma int_decimal_padded w n :
  0 <= n -> (length (decimal_padded w n) <= 640)%nat ->
  int rt 10 (decimal_padded w n) = Ok n.
Proof.
  intros Hn Hlen.
  pose proof (int_of_digits rt false (decimal_padded w n) (decimal_padded_ascii w n)) as H.
  cbn [app] in H. rewrite H; [|  |done].
  - f_equal. unfold decimal_padded.
    rewrite digits_value_zeros by apply uint_digits_ascii.
    by apply digits_value_decimal.
  - unfold decimal_padded. intros E. apply app_eq_nil in E as [_ E].
    by apply decimal_nonempty in E.
Qed.


Ltac each_value :=
  match goal with
  | |- Forall ?P ?l => let l' := eval vm_compute in l in change (Forall P l')
  end;
  repeat (apply Forall_cons; split; [intros ?; vm_compute; eexists; reflexivity|]);
  constructor.

Ltac pick_value H v :=
  rewrite Forall_forall in H; apply (H v); apply elem_of_seqZ; lia.

Lemma match_month v rest :
  1 <= v <= 12 ->
  exists tl, match_item re_m (decimal_padded 2 v ++ rest) = (decimal_padded 2 v, rest) :: tl.
Proof.
  intros Hv. revert rest.
  assert (H : Forall (fun v => forall rest, exists tl,
      match_item re_m (decimal_padded 2 v ++ rest) = (decimal_padded 2 v, rest) :: tl)
      (seqZ 1 12)) by each_value.
  pick_value H v.
Qed.

Lemma match_day v rest :
  1 <= v <= 31 ->
  exists tl, match_item (re_d rt) (decimal_padded 2 v ++ rest) = (decimal_padded 2 v, rest) :: tl.
Proof.
  intros Hv. revert rest.
  assert (H : Forall (fun v => forall rest, exists tl,
      match_item (re_d rt) (decimal_padded 2 v ++ rest) = (decimal_padded 2 v, rest) :: tl)
      (seqZ 1 31)) by each_value.
  pick_value H v.
Qed.

Lemma match_hour v rest :
  0 <= v <= 23 ->
  exists tl, match_item (re_H rt) (decimal_padded 2 v ++ rest) = (decimal_padded 2 v, rest) :: tl.
Proof.
  intros Hv. revert rest.
  assert (H : Forall (fun v => forall rest, exists tl,
      match_item (re_H rt) (decimal_padded 2 v ++ rest) = (decimal_padded 2 v, rest) :: tl)
      (seqZ 0 24)) by each_value.
  pick_value H v.
Qed.

Lemma match_minute v rest :
  0 <= v <= 59 ->
  exists tl, match_item (re_M rt) (decimal_padded 2 v ++ rest) = (decimal_padded 2 v, rest) :: tl.
Proof.
  intros Hv. revert rest.
  assert (H : Forall (fun v => forall rest, exists tl,
      match_item (re_M rt) (decimal_padded 2 v ++ rest) = (decimal_padded 2 v, rest) :: tl)
      (seqZ 0 60)) by each_value.
  pick_value H v.
Qed.

Lemma match_second v rest :
  0 <= v <= 59 ->
  exists tl, match_item (re_S rt) (decimal_padded 2 v ++ rest) = (decimal_padded 2 v, rest) :: tl.
Proof.
  intros Hv. revert rest.
  assert (H : Forall (fun v => forall rest, exists tl,
      match_item (re_S rt) (decimal_padded 2 v ++ rest) = (decimal_padded 2 v, rest) :: tl)
      (seqZ 0 60)) by each_value.
  pick_value H v.
Qed.

Lemma year_width_checked :
  forallb (fun y => (length (decimal_padded 4 y) =? 4)%nat) (seqZ 1 9999) = true.
Proof. vm_compute. reflexivity. Qed.

Lemma is_decimal_ascii_digit c : is_ascii_digit c = true -> is_decimal rt c = true.
Proof.
  intros H. unfold is_decimal. unfold is_ascii_digit in H.
  replace (is_ascii c) with true; [done|].
  unfold in_range in H. nbool. symmetry. apply N.ltb_lt. lia.
Qed.

Lemma match_year v rest :
  1 <= v <= 9999 ->
  match_item (re_Y rt) (decimal_padded 4 v ++ rest) = [(decimal_padded 4 v, rest)].
Proof.
  intros Hv.
  pose proof year_width_checked as H. rewrite forallb_forall in H.
  specialize (H v). apply Nat.eqb_eq in H; [|apply list_elem_of_In, elem_of_seqZ; lia].
  pose proof (decimal_padded_ascii 4 v) as HF.
  destruct (decimal_padded 4 v) as [|a [|b [|c [|d [|]]]]]; try discriminate H.
  unfold re_Y. rewrite match_item_single. cbn [app match_classes].
  repeat (apply Forall_cons in HF as [?%is_decimal_ascii_digit HF]).
  by repeat match goal with E : is_decimal rt _ = true |- _ => rewrite E; clear E end.
Qed.

Lemma match_colon rest : match_item (ReLit colon) (colon :: rest) = [([colon], rest)].
Proof. reflexivity. Qed.

Lemma match_blank c rest :
  is_ascii_digit c = true -> match_item ReSpaces (32%N :: c :: rest) = [([32%N], c :: rest)].
Proof.
  intros H. cbn. by rewrite (digit_not_space c H).
Qed.

Lemma padded_cons w n :
  exists c ds, decimal_padded w n = c :: ds /\ is_ascii_digit c = true.
Proof.
  pose proof (decimal_padded_ascii w n) as HF.
  destruct (decimal_padded w n) as [|c ds] eqn:E.
  - exfalso. unfold decimal_padded in E. apply app_eq_nil in E as [_ E].
    by apply decimal_nonempty in E.
  - apply Forall_cons in HF as [Hc _]. eauto.
Qed.

Lemma re_match_exif (dt : datetime) :
  valid_datetime dt = true ->
  exists tl, re_match (exif_pattern rt) (exif_text dt)
             = ([decimal_padded 4 (year dt); [colon]; decimal_padded 2 (month dt); [colon];
                 decimal_padded 2 (day dt); [32%N]; decimal_padded 2 (hour dt); [colon];
                 decimal_padded 2 (minute dt); [colon]; decimal_padded 2 (second dt)], []) :: tl.
Proof.
  intros Hv. unfold valid_datetime in Hv.
  repeat (apply andb_true_iff in Hv as [Hv ?]).
  repeat match goal with H : (_ <=? _) = true |- _ => apply Z.leb_le in H end.
  assert (day dt <= 31).
  { unfold days_in_month in *. repeat case_match; lia. }
  unfold exif_pattern, exif_text.
  destruct (match_second (second dt) [] ltac:(lia)) as [t11 E11].
  rewrite app_nil_r in E11.
  destruct (re_match_head _ [] _ _ _ _ [] [] [] E11 eq_refl) as [u11 F11].
  destruct (re_match_head _ _ _ _ _ _ _ _ _ (match_colon _) F11) as [u10 F10].
  destruct (match_minute (minute dt) ([colon] ++ decimal_padded 2 (second dt)) ltac:(lia))
    as [t9 E9].
  destruct (re_match_head _ _ _ _ _ _ _ _ _ E9 F10) as [u9 F9].
  destruct (re_match_head _ _ _ _ _ _ _ _ _ (match_colon _) F9) as [u8 F8].
  destruct (match_hour (hour dt)
              ([colon] ++ decimal_padded 2 (minute dt) ++ [colon] ++ decimal_padded 2 (second dt))
              ltac:(lia)) as [t7 E7].
  destruct (re_match_head _ _ _ _ _ _ _ _ _ E7 F8) as [u7 F7].
  destruct (padded_cons 2 (hour dt)) as (c & ds & Ec & Hc).
  rewrite Ec in F7 at 1. cbn [app] in F7.
  destruct (re_match_head _ _ _ _ _ _ _ _ _ (match_blank c _ Hc) F7) as [u6 F6].
  change (c :: ds ++ ?x) with ((c :: ds) ++ x) in F6. rewrite <- Ec in F6.
  destruct (match_day (day dt)
              ([32%N] ++ decimal_padded 2 (hour dt) ++ [colon] ++ decimal_padded 2 (minute dt)
                 ++ [colon] ++ decimal_padded 2 (second dt)) ltac:(lia)) as [t5 E5].
  destruct (re_match_head _ _ _ _ _ _ _ _ _ E5 F6) as [u5 F5].
  destruct (re_match_head _ _ _ _ _ _ _ _ _ (match_colon _) F5) as [u4 F4].
  destruct (match_month (month dt)
              ([colon] ++ decimal_padded 2 (day dt) ++ [32%N] ++ decimal_padded 2 (hour dt)
                 ++ [colon] ++ decimal_padded 2 (minute dt)
                 ++ [colon] ++ decimal_padded 2 (second dt)) ltac:(lia)) as [t3 E3].
  destruct (re_match_head _ _ _ _ _ _ _ _ _ E3 F4) as [u3 F3].
  destruct (re_match_head _ _ _ _ _ _ _ _ _ (match_colon _) F3) as [u2 F2].
  destruct (re_match_head _ _ _ _ _ _ _ _ _
              (match_year (year dt)
                 ([colon] ++ decimal_padded 2 (month dt) ++ [colon] ++ decimal_padded 2 (day dt)
                    ++ [32%N] ++ decimal_padded 2 (hour dt)
                    ++ [colon] ++ decimal_padded 2 (minute dt)
                    ++ [colon] ++ decimal_padded 2 (second dt)) ltac:(lia)) F2) as [u1 F1].
  eexists. exact F1.
Qed.

Lemma two_width_checked :
  forallb (fun v => (length (decimal_padded 2 v) =? 2)%nat) (seqZ 0 100) = true.
Proof. vm_compute. reflexivity. Qed.

(** [strptime] accepts the EXIF text of every valid date-time and gives
    the date-time back. *)
Lemma strptime_exif_text (dt : datetime) :
  valid_datetime dt = true -> strptime_exif rt (exif_text dt) = Ok dt.
Proof.
  intros Hv. destruct (re_match_exif dt Hv) as [tl E].
  unfold strptime_exif. rewrite E. cbv beta iota.
  pose proof Hv as Hv'. unfold valid_datetime in Hv'.
  repeat (apply andb_true_iff in Hv' as [Hv' ?]).
  repeat match goal with H : (_ <=? _) = true |- _ => apply Z.leb_le in H end.
  assert (day dt <= 31).
  { unfold days_in_month in *. repeat case_match; lia. }
  assert (W2 : forall v, 0 <= v <= 99 -> (length (decimal_padded 2 v) <= 640)%nat).
  { intros v Hr. pose proof two_width_checked as H'. rewrite forallb_forall in H'.
    specialize (H' v). apply Nat.eqb_eq in H'; [lia|apply list_elem_of_In, elem_of_seqZ; lia]. }
  assert (W4 : (length (decimal_padded 4 (year dt)) <= 640)%nat).
  { pose proof year_width_checked as H'. rewrite forallb_forall in H'.
    specialize (H' (year dt)).
    apply Nat.eqb_eq in H'; [lia|apply list_elem_of_In, elem_of_seqZ; lia]. }
  rewrite !int_decimal_padded by (try apply W2; lia || done).
  cbn. destruct dt. cbn in *. by rewrite Hv.
Qed.



End Strptime.



(** ** [process_directory]: what one file and the whole batch come to *)

Section BatchOutcomes.
Context {World : Type}.
Variable rt : runtime.
Variable io : os_interface World.
Variables (output_dir : list N) (font_size : Z) (color position : list N) (opacity : float).

Local Abbreviation step := (process_file rt io output_dir font_size color position opacity).
Local Abbreviation loop := (process_files rt io output_dir font_size color position opacity).

Lemma strftime_ymd_last dt : exists t, strftime_ymd rt dt = t ++ [ri].
Proof.
  unfold strftime_ymd.
  exists ((if strftime_pads_year rt then decimal_padded 4 (year dt) else decimal (year dt))
            ++ [nian] ++ decimal_padded 2 (month dt) ++ [yue] ++ decimal_padded 2 (day dt)).
  by rewrite <- !app_assoc.
Qed.

Lemma extract_some (image_path : path) (w : World) s lg :
  extract_exif_datetime rt io image_path w = (Some s, lg) ->
  (exists dt, s = strftime_ymd rt dt) /\ (lg = [] \/ lg = [LogNoExifTime image_path]).
Proof.
  unfold extract_exif_datetime, extract_exif_datetime_try. intros H.
  destruct (read_exif io image_path w) as [tags|e]; [|discriminate H].
  assert (Hscan : forall fields r, scan_datetime_fields rt tags fields = Ok (Some r) ->
                                   exists dt, r = strftime_ymd rt dt).
  { induction fields as [|f fields IH]; intros r Hr; [discriminate Hr|].
    cbn in Hr. repeat case_match; simplify_eq; eauto. }
  destruct (scan_datetime_fields rt tags datetime_fields) as [[r|]|e] eqn:E.
  - injection H as <- <-. split; [by eapply Hscan|by left].
  - destruct (getmtime io image_path w) as [t|e]; [|discriminate H]. cbn in H.
    destruct (fromtimestamp io t) as [dt|e]; [|discriminate H]. cbn in H.
    injection H as <- <-. split; [eauto|by right].
  - discriminate H.
Qed.


(** When the colour cannot be parsed or the alpha cannot be computed,
    [add_watermark] fails before anything is drawn. *)
Lemma add_watermark_bad_fill (image_path output_path : path) text (w : World) :
  is_ok (parse_color rt color) = false \/ is_ok (watermark_alpha opacity) = false ->
  exists lg, add_watermark rt io image_path output_path text font_size color position opacity w
             = (false, w, lg).
Proof.
  intros H. unfold add_watermark, add_watermark_try.
  destruct (pil_measure io image_path text font_size w) as [[sz [[[b0 b1] b2] b3]]|e];
    [|eauto].
  destruct (parse_color rt color) as [c|e]; [|eauto].
  destruct (watermark_alpha opacity) as [a|e]; [|eauto].
  by destruct H.
Qed.

Lemma process_file_bad_fill (st : tally) (image_file : path) :
  is_ok (parse_color rt color) = false \/ is_ok (watermark_alpha opacity) = false ->
  success_count (step st image_file) = success_count st
  /\ fail_count (step st image_file) = fail_count st + 1
  /\ world (step st image_file) = world st.
Proof.
  intros H. unfold process_file.
  destruct (extract_exif_datetime rt io image_file (world st)) as [[[|c text]|] lg1];
    cbn; try done.
  destruct (add_watermark_bad_fill image_file (output_file_of output_dir image_file)
              (c :: text) (world st) H) as [lg ->].
  done.
Qed.

Lemma process_files_bad_fill (files : list path) (st : tally) :
  is_ok (parse_color rt color) = false \/ is_ok (watermark_alpha opacity) = false ->
  success_count (loop files st) = success_count st
  /\ fail_count (loop files st) = fail_count st + Z.of_nat (length files)
  /\ world (loop files st) = world st.
Proof.
  intros H. revert st. induction files as [|f files IH]; intros st.
  - cbn. split_and!; lia || done.
  - cbn [process_files fold_left length].
    change (fold_left step files (step st f)) with (loop files (step st f)).
    destruct (IH (step st f)) as (-> & -> & ->).
    destruct (process_file_bad_fill st f H) as (-> & -> & ->).
    split_and!; lia || done.
Qed.


(** The counts when the outcome of a file does not depend on the state the
    loop is in. *)
Lemma process_files_counts (good : path -> bool) (files : list path) (st : tally) :
  (forall st' f, f ∈ files ->
     success_count (step st' f) = success_count st' + (if good f then 1 else 0)) ->
  success_count (loop files st)
  = success_count st + Z.of_nat (length (filter (fun f => good f = true) files))
  /\ fail_count (loop files st)
     = fail_count st + Z.of_nat (length (filter (fun f => good f = false) files)).
Proof.
  revert st. induction files as [|f files IH]; intros st H.
  - cbn. lia.
  - cbn [process_files fold_left].
    change (fold_left step files (step st f)) with (loop files (step st f)).
    destruct (IH (step st f)) as [-> ->]; [intros; apply H; by right|].
    pose proof (H st f ltac:(by left)) as Hs.
    pose proof (process_file_counts rt io output_dir font_size color position opacity st f)
      as Hc.
    rewrite !filter_cons. destruct (good f); cbn [length]; repeat case_decide; try done;
      cbn [length]; lia.
Qed.



End BatchOutcomes.



Lemma sample_outcomes (st : tally) (f : path) :
  f ∈ image_files Sample.linux_runtime Sample.sample_io Sample.formats (str "in") [] ->
  success_count (process_file Sample.linux_runtime Sample.sample_io (str "out") 24
                   (str "white") (str "center") 0.5%float st f)
  = success_count st + (if Sample.good f then 1 else 0).
Proof.
  intros H.
  assert (E : image_files Sample.linux_runtime Sample.sample_io Sample.formats (str "in") []
              = [ {| parent := str "in"; name := str "a.jpg" |};
                  {| parent := str "in"; name := str "locked.jpg" |};
                  {| parent := str "in"; name := str "c.PNG" |} ])
    by (vm_compute; reflexivity).
  rewrite E in H.
  unfold process_file.
  repeat (apply elem_of_cons in H as [->|H];
          [repeat match goal with
                  | |- context [extract_exif_datetime ?a ?b ?c ?d] =>
                      let v := eval vm_compute in (extract_exif_datetime a b c d) in
                      change (extract_exif_datetime a b c d) with v; cbv beta iota zeta
                  | |- context [add_watermark ?a ?b ?c ?d ?e ?f ?g ?h ?i ?j] =>
                      let v := eval vm_compute in (add_watermark a b c d e f g h i j) in
                      change (add_watermark a b c d e f g h i j) with v; cbv beta iota zeta
                  end;
           match goal with
           | |- context [Sample.good ?p] =>
               let v := eval vm_compute in (Sample.good p) in
               change (Sample.good p) with v
           end;
           cbn [success_count]; lia|]).
  by apply elem_of_nil in H.
Qed.



(** ** [process_directory]: the names of the output files *)

Section Names.

Lemma rfind_dot_none s i found : 46%N ∉ s -> rfind_dot s i found = found.
Proof.
  revert i found. induction s as [|c s IH]; intros i found H; [reflexivity|].
  apply not_elem_of_cons in H as [Hc Hs]. cbn [rfind_dot].
  rewrite (IH _ _ Hs). by destruct (N.eqb_spec c 46).
Qed.

Lemma rfind_dot_last a e i found :
  46%N ∉ e -> rfind_dot (a ++ 46%N :: e) i found = Some (i + length a)%nat.
Proof.
  intros He. revert i found. induction a as [|c a IH]; intros i found.
  - cbn [app rfind_dot N.eqb Pos.eqb]. rewrite rfind_dot_none by done. f_equal. cbn. lia.
  - cbn [app rfind_dot]. rewrite IH. f_equal. cbn. lia.
Qed.

(** [stem] and [suffix] of a name whose last dot is neither its first nor
    its last character, and of a name whose only dot is the first
    character. *)
Lemma split_suffix_inner base e :
  base <> [] -> e <> [] -> 46%N ∉ e ->
  split_suffix (base ++ 46%N :: e) = (base, 46%N :: e).
Proof.
  intros Hb He Hd. unfold split_suffix. rewrite rfind_dot_last by done.
  rewrite length_app, length_cons. cbn [Nat.add].
  destruct base as [|c base]; [done|]. destruct e as [|c' e]; [done|].
  cbn [length].
  replace (0 <? S (length base))%nat with true by (symmetry; apply Nat.ltb_lt; lia).
  replace (S (length base) <? S (length base) + S (S (length e)) - 1)%nat with true
    by (symmetry; apply Nat.ltb_lt; lia).
  cbn [andb]. rewrite take_app_length', drop_app_length' by done. reflexivity.
Qed.

Lemma split_suffix_leading e :
  46%N ∉ e -> split_suffix (46%N :: e) = (46%N :: e, []).
Proof.
  intros Hd. unfold split_suffix.
  pose proof (rfind_dot_last [] e 0 None Hd) as H. cbn [app] in H. rewrite H. reflexivity.
Qed.

(** Every pattern of the loop is a dot followed by letters without a dot. *)
Lemma patterns_shape :
  Forall (fun ext0 : list N =>
    Forall (fun ext : list N =>
      exists e, ext = 46%N :: e /\ e <> [] /\ 46%N ∉ e) [ext0; upper_ascii ext0])
    (elements supported_formats).
Proof.
  match goal with
  | |- Forall ?P ?l => let l' := eval vm_compute in l in change (Forall P l')
  end.
  repeat (apply Forall_cons; split;
          [repeat (apply Forall_cons; split;
                   [eexists; split; [reflexivity|]; split; [done|];
                    apply (bool_decide_unpack _); vm_compute; reflexivity|]);
           constructor|]).
  constructor.
Qed.

Lemma pattern_shape ext0 ext :
  ext0 ∈ supported_formats -> ext = ext0 \/ ext = upper_ascii ext0 ->
  exists e, ext = 46%N :: e /\ e <> [] /\ 46%N ∉ e.
Proof.
  intros H0 H. pose proof patterns_shape as HP. rewrite Forall_forall in HP.
  specialize (HP ext0 ltac:(by apply elem_of_elements)). rewrite Forall_forall in HP.
  apply HP. rewrite !elem_of_cons. tauto.
Qed.


Lemma last_dot_unique (a b e1 e2 : list N) :
  a ++ 46%N :: e1 = b ++ 46%N :: e2 -> 46%N ∉ e1 -> 46%N ∉ e2 -> a = b /\ e1 = e2.
Proof.
  revert b. induction a as [|c a IH]; intros [|c' b] H H1 H2; cbn in H.
  - by injection H.
  - injection H as <- ->. destruct H1. apply elem_of_app. right. by left.
  - injection H as -> <-. destruct H2. apply elem_of_app. right. by left.
  - injection H as -> H. destruct (IH b H H1 H2) as [-> ->]. done.
Qed.

Lemma watermark_no_dot : 46%N ∉ str "_watermark".
Proof. apply (bool_decide_unpack _). vm_compute. reflexivity. Qed.

(** The output names of two names that end in a dot and letters are equal
    only when the names are. *)
Lemma output_name_inj output_dir (p1 p2 : path) b1 e1 b2 e2 :
  name p1 = b1 ++ 46%N :: e1 -> e1 <> [] -> 46%N ∉ e1 ->
  name p2 = b2 ++ 46%N :: e2 -> e2 <> [] -> 46%N ∉ e2 ->
  output_file_of output_dir p1 = output_file_of output_dir p2 -> name p1 = name p2.
Proof.
  intros N1 E1 D1 N2 E2 D2 H. apply (f_equal name) in H.
  unfold output_file_of, stem, suffix in H. cbn [name] in H. rewrite N1, N2 in *.
  pose proof watermark_no_dot as HW.
  assert (HW1 : 46%N ∉ e1 ++ str "_watermark") by (rewrite elem_of_app; tauto).
  assert (HW2 : 46%N ∉ e2 ++ str "_watermark") by (rewrite elem_of_app; tauto).
  destruct b1 as [|c1 b1], b2 as [|c2 b2]; rewrite ?app_nil_l in *.
  - rewrite !split_suffix_leading in H by done. cbn [fst snd] in H.
    rewrite !app_nil_r in H. by apply app_inv_tail in H.
  - rewrite split_suffix_leading in H by done.
    rewrite (split_suffix_inner (c2 :: b2)) in H by done. cbn [fst snd] in H.
    rewrite app_nil_r in H.
    change ((46%N :: e1) ++ str "_watermark")
      with ([] ++ 46%N :: (e1 ++ str "_watermark")) in H.
    rewrite (app_assoc (c2 :: b2)) in H.
    by destruct (last_dot_unique _ _ _ _ H HW1 D2) as [? _].
  - rewrite (split_suffix_inner (c1 :: b1)) in H by done.
    rewrite split_suffix_leading in H by done. cbn [fst snd] in H.
    rewrite app_nil_r in H.
    change ((46%N :: e2) ++ str "_watermark")
      with ([] ++ 46%N :: (e2 ++ str "_watermark")) in H.
    rewrite (app_assoc (c1 :: b1)) in H.
    by destruct (last_dot_unique _ _ _ _ H D1 HW2) as [? _].
  - rewrite (split_suffix_inner (c1 :: b1)), (split_suffix_inner (c2 :: b2)) in H by done.
    cbn [fst snd] in H. rewrite !(app_assoc (_ :: _)) in H.
    destruct (last_dot_unique _ _ _ _ H D1 D2) as [Hb ->].
    apply app_inv_tail in Hb. by rewrite Hb.
Qed.

End Names.

Section Outputs.
Context {World : Type}.
Variable rt : runtime.
Variable io : os_interface World.
Hypothesis posix : posix_flavour rt = true.

Lemma image_file_shape (formats : list (list N)) (input_dir : list N) (w : World) (p : path) :
  formats ≡ₚ elements supported_formats ->
  p ∈ image_files rt io formats input_dir w ->
  parent p = input_dir
  /\ exists b e, name p = b ++ 46%N :: e /\ e <> [] /\ 46%N ∉ e.
Proof.
  intros Hperm Hp. unfold image_files in Hp.
  apply list_elem_of_bind in Hp as (ext0 & Hp & Hext).
  rewrite Hperm, elem_of_elements in Hext.
  apply elem_of_app in Hp. rewrite !(elem_of_glob_star rt posix) in Hp.
  assert (exists ext, (ext = ext0 \/ ext = upper_ascii ext0)
                      /\ parent p = input_dir /\ ext `suffix_of` name p)
    as (ext & Hcase & Hpar & [b Hb]).
  { destruct Hp as [(?&_&?)|(?&_&?)]; [exists ext0|exists (upper_ascii ext0)]; auto. }
  destruct (pattern_shape ext0 ext Hext Hcase) as (e & -> & He & Hd).
  split; [done|]. eauto.
Qed.


End Outputs.

(** ** [process_directory]: discovery with Windows paths *)

Section Windows.
Context {World : Type}.
Variable rt : runtime.
Variable io : os_interface World.
Hypothesis windows : posix_flavour rt = false.

Lemma ascii_lower_upper p : ascii_lower (ascii_upper p) = ascii_lower p.
Proof.
  unfold ascii_lower, ascii_upper, in_range.
  repeat (match goal with
          | |- context [(?a <=? ?b)%N] => destruct (N.leb_spec a b)
          end; cbn [andb] in *); lia.
Qed.

Lemma ends_like_upper (rev_name rev_lit : list N) :
  Forall (fun c => is_ascii c = true) rev_name ->
  ends_like (pattern_char_eq rt) rev_name (map ascii_upper rev_lit)
  = ends_like (pattern_char_eq rt) rev_name rev_lit.
Proof.
  revert rev_name. induction rev_lit as [|p l IH]; intros [|c n] H; cbn; try reflexivity.
  apply Forall_cons in H as [Hc H]. rewrite (IH n H). f_equal.
  unfold pattern_char_eq. rewrite windows, Hc. by rewrite ascii_lower_upper.
Qed.

Lemma star_match_upper lit nm :
  Forall (fun c => is_ascii c = true) nm ->
  star_match rt (upper_ascii lit) nm = star_match rt lit nm.
Proof.
  intros H. unfold star_match, upper_ascii. rewrite <- map_rev.
  apply ends_like_upper. rewrite rev_alt. fold (reverse nm). by apply Forall_reverse.
Qed.

Lemma glob_star_upper dir entries lit :
  Forall (Forall (fun c => is_ascii c = true)) entries ->
  glob_star rt dir entries (upper_ascii lit) = glob_star rt dir entries lit.
Proof.
  intros H. unfold glob_star. f_equal.
  induction H as [|nm entries Hn _ IH]; [reflexivity|].
  rewrite !filter_cons, IH, (star_match_upper lit nm Hn). reflexivity.
Qed.


End Windows.




(** ** [main] and [interactive_mode] *)

Section ShellFacts.
Context {World : Type}.
Variable rt : runtime.
Variable bi : builtins.
Variable io : os_interface World.
Variable sh : shell_interface World.

Lemma run_batch_exit formats input_dir output_dir font_size color position opacity
    (w : World) out :
  (run_batch rt io formats input_dir output_dir font_size color position opacity w out).1.1.1
  = match (mkdir io output_dir w).2 with
    | Ok _ => Ok ()
    | Raise e => Raise e
    end.
Proof.
  unfold run_batch, process_directory.
  destruct (mkdir io output_dir w) as [w1 [u|e]]; cbn [snd]; [|reflexivity].
  by destruct (image_files rt io formats input_dir w1).
Qed.


(** The loop that asks for the directory skips every line that does not
    name an existing directory and stops at the first that does. *)
Lemma ask_directory_skips (bad : list (list N)) (stdin : list (list N)) (w : World) :
  Forall (fun line => path_exists sh (strip line) w && path_isdir sh (strip line) w = false)
    bad ->
  ask_directory sh (bad ++ stdin) w
  = ((ask_directory sh stdin w).1,
     (bad ≫= fun _ => [Prompt AskDirectory; PrintNoSuchDirectory])
       ++ (ask_directory sh stdin w).2).
Proof.
  induction 1 as [|line bad Hline _ IH]; [cbn; by destruct (ask_directory sh stdin w)|].
  cbn [app ask_directory]. rewrite Hline, IH. reflexivity.
Qed.


End ShellFacts.

(** ** [interactive_mode]: the font size and the opacity *)

Section Inputs.
Variable rt : runtime.
Variable bi : builtins.

Lemma isdigit_ascii_digits s :
  Forall (fun c => is_ascii_digit c = true) s -> s <> [] ->
  isdigit (unicode_digit bi) s = true.
Proof.
  intros HF Hne. destruct s as [|c s]; [done|]. unfold isdigit.
  apply forallb_forall. intros x Hx%list_elem_of_In.
  rewrite Forall_forall in HF. specialize (HF x Hx).
  unfold is_digit_char. replace (is_ascii x) with true; [done|].
  unfold is_ascii_digit, in_range in HF. nbool. symmetry. apply N.ltb_lt. lia.
Qed.

Lemma isdigit_false s c :
  c ∈ s -> is_digit_char (unicode_digit bi) c = false -> isdigit (unicode_digit bi) s = false.
Proof.
  intros Hc Hd. destruct s as [|x s]; [reflexivity|]. unfold isdigit.
  apply not_true_is_false. intros H. rewrite forallb_forall in H.
  specialize (H c (proj1 (list_elem_of_In _ _) Hc)). congruence.
Qed.

Lemma skip_c_space_spaces s :
  exists sp, s = sp ++ skip_c_space s /\ Forall (fun c => is_c_space c = true) sp.
Proof.
  induction s as [|c s (sp & E & HF)]; [by exists []|]. cbn [skip_c_space].
  destruct (is_c_space c) eqn:Ec.
  - exists (c :: sp). split; [by rewrite E at 1|by constructor].
  - by exists [].
Qed.

(** Every character of a string [int] converts is white space, a sign, a
    digit of the base, an underscore, or the [0x] of a prefix. *)
Lemma int_of_ascii_chars base s v c :
  int_of_ascii rt base s = Ok v -> c ∈ s ->
  is_c_space c = true \/ is_digit_in base c = true
  \/ c ∈ [43; 45; 48; 120; 88; 95]%N.
Proof.
  unfold int_of_ascii.
  destruct (skip_c_space_spaces s) as (sp & Es & Hsp).
  set (s1 := skip_c_space s) in *. clearbody s1.
  set (sg := match s1 with 43%N :: r => (false, r) | 45%N :: r => (true, r) | _ => (false, s1) end).
  assert (Hsg : forall neg s2, sg = (neg, s2) ->
                 forall x, x ∈ s1 -> x ∈ s2 \/ x ∈ [43; 45]%N).
  { subst sg. intros neg s2 H x Hx. repeat case_match; simplify_eq; auto;
      apply elem_of_cons in Hx as [->|Hx]; auto; right; rewrite !elem_of_cons; auto. }
  destruct sg as [neg s2]. specialize (Hsg neg s2 eq_refl).
  set (s3 := match s2 with 48%N :: x :: r => _ | _ => s2 end).
  assert (Hs3 : forall x, x ∈ s2 -> x ∈ s3 \/ x ∈ [48; 120; 88; 95]%N).
  { subst s3. intros x Hx. repeat case_match; simplify_eq; auto;
      match goal with
      | H : _ && (_ || _) = true |- _ =>
          apply andb_true_iff in H as [_ H]; apply orb_true_iff in H;
          rewrite !N.eqb_eq in H
      end;
      rewrite !elem_of_cons in *; intuition (subst; auto). }
  clearbody s3.
  destruct (span_digits base s3) as [dd rest] eqn:E.
  assert (Hd : s3 = dd ++ rest
               /\ Forall (fun c => is_digit_in base c = true \/ c = underscore) dd).
  { clear -E. revert dd rest E. induction s3 as [|a s3 IH]; intros dd rest H; cbn in H.
    - by simplify_eq.
    - destruct (is_digit_in base a || (a =? underscore)%N) eqn:Ea.
      + destruct (span_digits base s3) as [d' r'] eqn:E'. simplify_eq.
        destruct (IH d' rest eq_refl) as [-> HF]. split; [done|].
        constructor; [|done].
        apply orb_true_iff in Ea as [Ea|Ea]; [by left|right; by apply N.eqb_eq].
      + by simplify_eq. }
  destruct Hd as [-> Hd].
  intros H Hc.
  assert (Hrest : Forall (fun c => is_c_space c = true) rest).
  { assert (Hnil : skip_c_space rest = []) by (repeat case_match; simplify_eq; done).
    destruct (skip_c_space_spaces rest) as (sp' & Er & Hsp').
    rewrite Hnil, app_nil_r in Er. by rewrite Er. }
  rewrite Es in Hc. apply elem_of_app in Hc as [Hc|Hc].
  { left. rewrite Forall_forall in Hsp. auto. }
  destruct (Hsg c Hc) as [Hc2|Hc2]; [|rewrite !elem_of_cons in *; tauto].
  destruct (Hs3 c Hc2) as [Hc3|Hc3]; [|rewrite !elem_of_cons in *; tauto].
  apply elem_of_app in Hc3 as [Hc3|Hc3].
  - rewrite Forall_forall in Hd. destruct (Hd c Hc3) as [?| ->]; [auto|].
    right; right. rewrite !elem_of_cons. auto 10.
  - left. rewrite Forall_forall in Hrest. auto.
Qed.



Lemma plain_cases c :
  plain c = true -> c ∈ [46; 48; 49; 50; 51; 52; 53; 54; 55; 56; 57]%N.
Proof.
  unfold plain. intros [H|H]%orb_true_iff.
  - right. by apply ascii_digit_cases.
  - apply N.eqb_eq in H as ->. by left.
Qed.

Ltac by_plain H :=
  apply plain_cases in H;
  repeat (apply elem_of_cons in H as [->|H]; [reflexivity|]); by apply elem_of_nil in H.

Lemma to_ascii_decimal_plain s :
  Forall (fun c => plain c = true) s -> map (to_ascii_decimal rt) s = s.
Proof.
  induction 1 as [|c s Hc _ IH]; [reflexivity|]. cbn [map]. rewrite IH. f_equal.
  by_plain Hc.
Qed.

Lemma skip_c_space_plain s :
  Forall (fun c => plain c = true) s -> skip_c_space s = s.
Proof. intros [|c t Hc _]; [reflexivity|]. by_plain Hc. Qed.

Lemma rstrip_plain r :
  Forall (fun c => plain c = true) r -> rstrip_c_space_rev r = r.
Proof.
  intros [|c t Hc _]; [reflexivity|]. destruct t; [reflexivity|].
  by_plain Hc.
Qed.

Lemma drop_underscores_plain prev s :
  (prev =? underscore)%N = false ->
  Forall (fun c => plain c = true) s -> drop_underscores prev s = Some s.
Proof.
  intros Hp HF. revert prev Hp. induction HF as [|c s Hc _ IH]; intros prev Hp.
  - cbn. by rewrite Hp.
  - cbn [drop_underscores]. rewrite Hp. cbn [andb].
    assert (Hu : (c =? underscore)%N = false) by (by_plain Hc).
    rewrite Hu, (IH c Hu). reflexivity.
Qed.

Lemma float_literal_plain s :
  Forall (fun c => plain c = true) s ->
  float_literal_of rt s
  = match scan_decimal s with
    | Some (d, []) => Some (LitDecimal d)
    | Some (_, _ :: _) => None
    | None => match scan_inf_or_nan s with Some (l, []) => Some l | _ => None end
    end.
Proof.
  intros H. unfold float_literal_of.
  rewrite (to_ascii_decimal_plain s H), (skip_c_space_plain s H).
  rewrite rstrip_plain by (rewrite rev_alt; fold (reverse s); by apply Forall_reverse).
  rewrite rev_involutive, drop_underscores_plain by done. reflexivity.
Qed.

Lemma span_digits_app ds r :
  Forall (fun c => is_ascii_digit c = true) ds ->
  match r with [] => True | c :: _ => is_ascii_digit c = false end ->
  span is_ascii_digit (ds ++ r) = (ds, r).
Proof.
  intros HF Hr. induction HF as [|c ds Hc _ IH].
  - destruct r as [|c r]; [reflexivity|]. cbn. by rewrite Hr.
  - cbn. by rewrite Hc, IH.
Qed.

Lemma split_sign_plain c s : plain c = true -> split_sign (c :: s) = (false, c :: s).
Proof. intros Hc. by_plain Hc. Qed.

Lemma split_sign_plain_list s :
  Forall (fun c => plain c = true) s -> split_sign s = (false, s).
Proof. intros [|c t Hc _]; [reflexivity|]. by apply split_sign_plain. Qed.

Lemma scan_inf_or_nan_plain s :
  Forall (fun c => plain c = true) s -> scan_inf_or_nan s = None.
Proof.
  intros H. unfold scan_inf_or_nan. rewrite (split_sign_plain_list s H).
  destruct H as [|c t Hc _]; [reflexivity|].
  unfold match_word.
  by_plain Hc.
Qed.

(** One dot at most: the literal.  [ip] and [fp] are the digits before and
    after the dot. *)
Lemma scan_decimal_simple ip fp (dot : bool) :
  Forall (fun c => is_ascii_digit c = true) ip ->
  Forall (fun c => is_ascii_digit c = true) fp ->
  (dot = false -> fp = []) -> ip ++ fp <> [] ->
  scan_decimal (ip ++ (if dot then 46%N :: fp else []))
  = Some ({| lit_negative := false; lit_integer := ip; lit_fraction := fp;
             lit_exponent := None |}, []).
Proof.
  intros Hi Hf Hdot Hne. unfold scan_decimal.
  assert (Hpl : Forall (fun c => plain c = true) (ip ++ (if dot then 46%N :: fp else []))).
  { apply Forall_app. split.
    - eapply Forall_impl; [exact Hi|]. intros c Hc. unfold plain. by rewrite Hc.
    - destruct dot; [|constructor]. constructor; [reflexivity|].
      eapply Forall_impl; [exact Hf|]. intros c Hc. unfold plain. by rewrite Hc. }
  rewrite (split_sign_plain_list _ Hpl).
  rewrite (span_digits_app ip) by (by destruct dot).
  destruct dot.
  - pose proof (span_digits_app fp [] Hf I) as E. rewrite app_nil_r in E. rewrite E.
    destruct ip, fp; try done.
  - rewrite (Hdot eq_refl) in *. rewrite app_nil_r in Hne. by destruct ip.
Qed.

(** Two dots: [strtod] stops at the second one. *)
Lemma scan_decimal_two_dots ip fp tl :
  Forall (fun c => is_ascii_digit c = true) ip ->
  Forall (fun c => is_ascii_digit c = true) fp ->
  match scan_decimal (ip ++ 46%N :: fp ++ 46%N :: tl) with
  | Some (_, _ :: _) | None => True
  | Some (_, []) => False
  end.
Proof.
  intros Hi Hf. unfold scan_decimal.
  assert (Hs : split_sign (ip ++ 46%N :: fp ++ 46%N :: tl)
               = (false, ip ++ 46%N :: fp ++ 46%N :: tl)).
  { destruct Hi as [|c t Hc _]; [reflexivity|]. apply split_sign_plain.
    unfold plain. by rewrite Hc. }
  rewrite Hs, (span_digits_app ip) by done.
  rewrite (span_digits_app fp (46%N :: tl)) by done.
  destruct ip, fp; done.
Qed.


End Inputs.

(** ** The default output directory *)

Section Paths.

Lemma split_on_no_sep sep s x : x ∈ split_on sep s -> sep ∉ x.
Proof.
  revert x. induction s as [|c s IH]; intros x Hx; cbn in Hx.
  - apply list_elem_of_singleton in Hx as ->. apply not_elem_of_nil.
  - destruct (N.eqb_spec c sep) as [->|Hne].
    + apply elem_of_cons in Hx as [->|Hx]; [apply not_elem_of_nil|by apply IH].
    + destruct (split_on sep s) as [|w ws] eqn:E.
      * apply list_elem_of_singleton in Hx as ->.
        intros [?|H]%elem_of_cons; [congruence|by apply elem_of_nil in H].
      * apply elem_of_cons in Hx as [->|Hx].
        -- intros [?|H]%elem_of_cons; [congruence|]. revert H. apply IH. by left.
        -- apply IH. by right.
Qed.

Lemma contains_false c s : contains c s = false -> c ∉ s.
Proof.
  unfold contains. intros H Hin.
  assert (existsb (N.eqb c) s = true); [|congruence].
  apply existsb_exists. exists c. split; [by apply list_elem_of_In|apply N.eqb_refl].
Qed.

Lemma is_component_true x : is_component x = true -> x <> [] /\ x <> str ".".
Proof.
  unfold is_component. intros [H1 H2]%andb_true_iff. split.
  - by destruct x.
  - apply negb_true_iff in H2. by apply bool_decide_eq_false in H2.
Qed.

Lemma posix_parse_shape (s : list N) :
  exists comps,
    Forall component comps
    /\ drv (posix_parse_parts s) = []
    /\ parts (posix_parse_parts s)
       = (if nonempty (root (posix_parse_parts s)) then [root (posix_parse_parts s)] else [])
           ++ comps.
Proof.
  unfold posix_parse_parts. destruct s as [|c s]; [by exists []|].
  destruct (posix_splitroot (c :: s)) as [r rel]. eexists. split; [|split; reflexivity].
  destruct (contains slash rel) eqn:Ec.
  - apply Forall_forall. intros x [Hx Hin]%list_elem_of_filter.
    destruct (is_component_true x Hx). split_and!; try done.
    by apply (split_on_no_sep _ rel).
  - destruct (is_component rel) eqn:Er; [|constructor].
    destruct (is_component_true rel Er). repeat constructor; try done.
    by apply contains_false.
Qed.

Lemma path_name_shape (s : list N) comps :
  parts (posix_parse_parts s)
  = (if nonempty (root (posix_parse_parts s)) then [root (posix_parse_parts s)] else [])
      ++ comps ->
  drv (posix_parse_parts s) = [] ->
  path_name (posix_parse_parts s) = List.last comps [].
Proof.
  intros Hp Hd. unfold path_name. rewrite Hp, Hd. cbn [nonempty orb].
  destruct (nonempty (root (posix_parse_parts s))); cbn [app length].
  - destruct comps as [|x l]; [reflexivity|]. cbn [length Nat.eqb]. by destruct l.
  - by destruct comps.
Qed.

Lemma parse_component key :
  component key ->
  posix_parse_parts key = {| drv := []; root := []; parts := [key] |}.
Proof.
  intros (Hne & Hdot & Hs). unfold posix_parse_parts.
  destruct key as [|c k]; [done|].
  assert (Hc : (c =? slash)%N = false).
  { apply N.eqb_neq. intros ->. apply Hs. by left. }
  unfold posix_splitroot. rewrite Hc.
  replace (contains slash (c :: k)) with false.
  2:{ symmetry. apply not_true_is_false. unfold contains. intros H.
      apply existsb_exists in H as (x & Hx & E). apply N.eqb_eq in E as <-.
      by apply Hs, list_elem_of_In. }
  unfold is_component. cbn [nonempty andb].
  by rewrite bool_decide_eq_false_2.
Qed.

Lemma join_snoc sep l x : l <> [] -> join sep (l ++ [x]) = join sep l ++ sep :: x.
Proof.
  induction l as [|a l IH]; [done|]. intros _.
  destruct l as [|b l]; [reflexivity|].
  cbn [app join] in *. rewrite IH by done. by rewrite <- app_assoc.
Qed.

Lemma join_nonempty sep l x : x ∈ l -> x <> [] -> join sep l <> [].
Proof.
  intros Hin Hx. destruct l as [|a l]; [by apply elem_of_nil in Hin|].
  destruct l as [|b l].
  - by apply list_elem_of_singleton in Hin as ->.
  - cbn [join]. by destruct a.
Qed.

Lemma last_elem (l : list (list N)) : l <> [] -> List.last l [] ∈ l.
Proof.
  induction l as [|a l IH]; [done|]. intros _. destruct l as [|b l]; [by left|].
  right. by apply IH.
Qed.

Lemma watermark_key_component x :
  slash ∉ x -> component (x ++ str "_watermark").
Proof.
  intros Hx. split_and!.
  - by destruct x.
  - destruct x as [|a [|b x]]; done.
  - rewrite elem_of_app. intros [H|H]; [done|].
    revert H. apply (bool_decide_unpack _). vm_compute. reflexivity.
Qed.

(** No pattern of the loop matches a name that ends in [_watermark]. *)
Lemma watermark_key_not_an_image (rt : runtime) x ext0 ext :
  ext0 ∈ supported_formats -> ext = ext0 \/ ext = upper_ascii ext0 ->
  star_match rt ext (x ++ str "_watermark") = false.
Proof.
  intros H0 H.
  assert (HP : Forall (fun e0 : list N => Forall (fun e : list N =>
              forall y, star_match rt e (y ++ str "_watermark") = false)
              [e0; upper_ascii e0]) (elements supported_formats)).
  { match goal with
    | |- Forall ?P ?l => let l' := eval vm_compute in l in change (Forall P l')
    end.
    repeat (apply Forall_cons; split;
            [repeat (apply Forall_cons; split;
                     [intros y; unfold star_match; rewrite rev_app_distr; cbn;
                      unfold pattern_char_eq; by destruct (posix_flavour rt)|]);
             constructor|]).
    constructor. }
  rewrite Forall_forall in HP.
  specialize (HP ext0 ltac:(by apply elem_of_elements)). rewrite Forall_forall in HP.
  apply HP. rewrite !elem_of_cons. tauto.
Qed.


End Paths.





